(** * The order book engine: matching core and ingress parser

    A shallow embedding of [order_book.py] (the [OrderBook] class with its
    heap-based sides) and of [UDPOrderServer._parse_order] from
    [udp_server.py], together with the properties of the specification that
    concern them.

    Conventions of the embedding.
    - Python exceptions are results: a call either returns a value or raises;
      a raising call aborts the computation it is part of ([result] monad).
    - Prices and timestamps are Python floats on which the engine performs
      only comparison and negation; they are taken as integers (ticks).
    - [Trade.trade_id] (a fresh uuid) and [Trade.timestamp] (wall clock) are
      drawn from the environment and never read by the book; the embedded
      [Trade] keeps the other fields.
    - The sides are Python lists handled by [heapq]; the module [Heapq] below
      follows the algorithms of CPython's heapq ([heappush], [heappop],
      [heapify] with their [_siftdown] and [_siftup]) on lists of tuples. *)

From Stdlib Require Import ZArith Lia.
From stdpp Require Import base option list gmap strings.

Local Open Scope Z_scope.

(** ** Exceptions *)

Inductive exn : Type :=
  | TypeError
  | KeyError
  | IndexError
  | ValueError
  | AttributeError.

Inductive result (A : Type) : Type :=
  | Ok (a : A)
  | Raise (e : exn).
Arguments Ok {A} a.
Arguments Raise {A} e.

Definition result_bind {A B : Type} (m : result A) (k : A → result B) : result B :=
  match m with
  | Ok a => k a
  | Raise e => Raise e
  end.

Notation "x ←! m ; k" := (result_bind m (λ x, k))
  (at level 20, m at level 100, k at level 200, only parsing, right associativity).
Notation "' p ←! m ; k" := (result_bind m (λ x, match x with p => k end))
  (at level 20, p pattern, m at level 100, k at level 200, only parsing,
   right associativity).

(** ** Orders and trades *)

Inductive OrderType : Type := MARKET | LIMIT | CANCEL.
Inductive OrderSide : Type := BUY | SELL.

Record Order : Type := mkOrder {
  order_id : string;
  client_id : string;
  symbol : string;
  side : OrderSide;
  order_type : OrderType;
  quantity : Z;
  price : option Z;
  timestamp : Z;
}.

Record Trade : Type := mkTrade {
  buy_order_id : string;
  sell_order_id : string;
  trade_symbol : string;
  trade_quantity : Z;
  trade_price : Z;
}.

Global Instance OrderType_eq_dec : EqDecision OrderType.
Proof. solve_decision. Defined.
Global Instance OrderSide_eq_dec : EqDecision OrderSide.
Proof. solve_decision. Defined.
Global Instance Order_eq_dec : EqDecision Order.
Proof. solve_decision. Defined.
Global Instance Trade_eq_dec : EqDecision Trade.
Proof. solve_decision. Defined.

(** [order.quantity = q] *)
Definition set_quantity (q : Z) (o : Order) : Order :=
  mkOrder (order_id o) (client_id o) (symbol o) (side o) (order_type o) q
          (price o) (timestamp o).

(** A side of the book is a list of tuples [(price key, timestamp, order)]. *)
Definition Entry : Type := Z * Z * Order.

Definition entry_key (e : Entry) : Z := e.1.1.
Definition entry_time (e : Entry) : Z := e.1.2.
Definition entry_order (e : Entry) : Order := e.2.

(** ** heapq on lists of entries *)

Module Heapq.

(** Python's [a < b] on two tuples: the first position where the tuples
    differ decides.  [Order] is a dataclass with the generated [__eq__]
    and no ordering, so when price key and timestamp agree and the two
    orders are not equal, [<] between the orders raises [TypeError]. *)
Definition entry_lt (a b : Entry) : result bool :=
  if bool_decide (entry_key a ≠ entry_key b) then Ok (entry_key a <? entry_key b)
  else if bool_decide (entry_time a ≠ entry_time b) then Ok (entry_time a <? entry_time b)
  else if bool_decide (entry_order a = entry_order b) then Ok false
  else Raise TypeError.

(** [_siftdown(heap, startpos, pos)]: the item at [pos] moves up while it
    is smaller than its parent.  [pos] strictly decreases, so [pos] steps
    of fuel are enough. *)
Fixpoint siftdown_loop (fuel : nat) (heap : list Entry) (startpos pos : nat)
  : result (list Entry) :=
  match fuel with
  | O => Ok heap
  | S fuel' =>
    if (startpos <? pos)%nat then
      let parentpos := ((pos - 1) / 2)%nat in
      match heap !! pos, heap !! parentpos with
      | Some newitem, Some parent =>
        c ←! entry_lt newitem parent;
        if c then
          siftdown_loop fuel' (<[parentpos:=newitem]> (<[pos:=parent]> heap))
                        startpos parentpos
        else Ok heap
      | _, _ => Raise IndexError
      end
    else Ok heap
  end.

Definition siftdown (heap : list Entry) (startpos pos : nat) : result (list Entry) :=
  siftdown_loop pos heap startpos pos.

(** First phase of [_siftup(heap, pos)]: the smaller child is moved up
    until a leaf is reached; returns the list and the leaf position. *)
Fixpoint siftup_loop (fuel : nat) (heap : list Entry) (pos : nat)
  : result (list Entry * nat) :=
  match fuel with
  | O => Ok (heap, pos)
  | S fuel' =>
    let endpos := length heap in
    let childpos := (2 * pos + 1)%nat in
    if (childpos <? endpos)%nat then
      c ←! (if (childpos + 1 <? endpos)%nat then
              match heap !! childpos, heap !! (childpos + 1)%nat with
              | Some l, Some r =>
                lt ←! entry_lt l r;
                Ok (if lt : bool then childpos else (childpos + 1)%nat)
              | _, _ => Raise IndexError
              end
            else Ok childpos);
      match heap !! c, heap !! pos with
      | Some child, Some item =>
        siftup_loop fuel' (<[c:=item]> (<[pos:=child]> heap)) c
      | _, _ => Raise IndexError
      end
    else Ok (heap, pos)
  end.

(** [_siftup(heap, pos)]: bubble the smaller child up to a leaf, then let
    the displaced item find its place with [_siftdown]. *)
Definition siftup (heap : list Entry) (pos : nat) : result (list Entry) :=
  '(heap', leaf) ←! siftup_loop (length heap) heap pos;
  siftdown heap' pos leaf.

(** [heapq.heappush(heap, item)] *)
Definition heappush (heap : list Entry) (item : Entry) : result (list Entry) :=
  siftdown (heap ++ [item]) 0 (length heap).

(** [heapq.heappop(heap)]: returns the popped item and the new list. *)
Definition heappop (heap : list Entry) : result (Entry * list Entry) :=
  match last heap with
  | None => Raise IndexError
  | Some lastelt =>
    match take (length heap - 1) heap with
    | [] => Ok (lastelt, [])
    | returnitem :: rest =>
      heap' ←! siftup (lastelt :: rest) 0;
      Ok (returnitem, heap')
    end
  end.

(** [heapq.heapify(x)]: [for i in reversed(range(n//2)): _siftup(x, i)] *)
Fixpoint heapify_loop (i : nat) (heap : list Entry) : result (list Entry) :=
  match i with
  | O => Ok heap
  | S i' => heap' ←! siftup heap i'; heapify_loop i' heap'
  end.

Definition heapify (heap : list Entry) : result (list Entry) :=
  heapify_loop (length heap / 2) heap.

End Heapq.

(** ** The order book *)

Record OrderBook : Type := mkOrderBook {
  book_symbol : string;
  buy_orders : list Entry;       (* keyed by the negated price *)
  sell_orders : list Entry;      (* keyed by the price *)
  orders_by_id : gmap string Order;
  client_orders : gmap string (list string);
  trades : list Trade;
  total_volume : Z;
  total_trades : Z;
}.

(** [OrderBook(symbol)] *)
Definition new_book (sym : string) : OrderBook :=
  mkOrderBook sym [] [] ∅ ∅ [] 0 0.

Definition set_sides (buys sells : list Entry) (idx : gmap string Order)
    (b : OrderBook) : OrderBook :=
  mkOrderBook (book_symbol b) buys sells idx (client_orders b) (trades b)
              (total_volume b) (total_trades b).

(** [del d[k]] raises [KeyError] on a missing key. *)
Definition dict_del (k : string) (d : gmap string Order) : result (gmap string Order) :=
  match d !! k with
  | Some _ => Ok (delete k d)
  | None => Raise KeyError
  end.

(** A heap tuple and the id-index share the order object, so an assignment
    to [o.quantity] made through one is seen through the other.  In the
    embedding the index entry is the same object when it equals [o]. *)
Definition assign_quantity (o : Order) (q : Z) (idx : gmap string Order)
  : gmap string Order :=
  if decide (idx !! order_id o = Some o) then <[order_id o := set_quantity q o]> idx
  else idx.

(** The matching loop, shared by the four loops of [_process_market_order]
    and [_process_limit_order], which differ in the side they consume, in
    the price test [crosses] of the loop condition and in the trade they
    build ([mk_trade], into any type of record).

    [while remaining_quantity > 0 and heap (and crosses heap[0][0])]: a full
    match pops the best order and deletes it from the index; a partial match
    reduces the best order in place and sets [remaining_quantity = 0], which
    ends the loop.  Every further iteration follows a pop, so [length heap]
    steps of fuel are enough. *)
Fixpoint match_loop {T : Type} (fuel : nat) (crosses : Z → result bool)
    (mk_trade : Entry → Z → T) (heap : list Entry) (idx : gmap string Order)
    (remaining : Z) (acc : list T)
  : result (list Entry * gmap string Order * Z * list T) :=
  match fuel with
  | O => Ok (heap, idx, remaining, acc)
  | S fuel' =>
    if 0 <? remaining then
      match heap with
      | [] => Ok (heap, idx, remaining, acc)
      | best :: _ =>
        go ←! crosses (entry_key best);
        if go : bool then
          let best_order := entry_order best in
          if quantity best_order <=? remaining then
            (* full match *)
            let trade_qty := quantity best_order in
            '(_, heap') ←! Heapq.heappop heap;
            idx' ←! dict_del (order_id best_order) idx;
            match_loop fuel' crosses mk_trade heap' idx'
                       (remaining - trade_qty) (acc ++ [mk_trade best trade_qty])
          else
            (* partial match *)
            let q := quantity best_order - remaining in
            Ok (<[0%nat := (entry_key best, entry_time best, set_quantity q best_order)]> heap,
                assign_quantity best_order q idx,
                0,
                acc ++ [mk_trade best remaining])
        else Ok (heap, idx, remaining, acc)
      end
    else Ok (heap, idx, remaining, acc)
  end.

(** [for trade in trades: self.trades.append(trade); ...] *)
Definition record_trade (b : OrderBook) (t : Trade) : OrderBook :=
  mkOrderBook (book_symbol b) (buy_orders b) (sell_orders b) (orders_by_id b)
              (client_orders b) (trades b ++ [t])
              (total_volume b + trade_quantity t) (total_trades b + 1).

Definition record_trades (ts : list Trade) (b : OrderBook) : OrderBook :=
  foldl record_trade b ts.

(** The trade of an incoming BUY against a resting sell at price [p]. *)
Definition trade_buying (order : Order) (p : Z) (best : Entry) (q : Z) : Trade :=
  mkTrade (order_id order) (order_id (entry_order best)) (symbol order) q p.

(** The trade of an incoming SELL against a resting buy at price [p]. *)
Definition trade_selling (order : Order) (p : Z) (best : Entry) (q : Z) : Trade :=
  mkTrade (order_id (entry_order best)) (order_id order) (symbol order) q p.

(** [OrderBook._process_market_order].  The price of a trade is the first
    component of the best tuple as stored: on the buy heap that is the
    negated price, and the SELL branch does not convert it back. *)
Definition _process_market_order (order : Order) (b : OrderBook)
  : result (OrderBook * list Trade) :=
  match side order with
  | BUY =>
    '(sells, idx, _, ts) ←!
      match_loop (length (sell_orders b)) (λ _, Ok true)
                 (λ best, trade_buying order (entry_key best) best)
                 (sell_orders b) (orders_by_id b) (quantity order) [];
    Ok (record_trades ts (set_sides (buy_orders b) sells idx b), ts)
  | SELL =>
    '(buys, idx, _, ts) ←!
      match_loop (length (buy_orders b)) (λ _, Ok true)
                 (λ best, trade_selling order (entry_key best) best)
                 (buy_orders b) (orders_by_id b) (quantity order) [];
    Ok (record_trades ts (set_sides buys (sell_orders b) idx b), ts)
  end.

(** Comparison of a price key with [order.price]; [None] is not comparable
    with a float. *)
Definition price_le (k : Z) (p : option Z) : result bool :=
  match p with
  | Some p => Ok (k <=? p)
  | None => Raise TypeError
  end.

Definition price_ge (k : Z) (p : option Z) : result bool :=
  match p with
  | Some p => Ok (p <=? k)
  | None => Raise TypeError
  end.

(** [-order.price] *)
Definition price_neg (p : option Z) : result Z :=
  match p with
  | Some p => Ok (- p)
  | None => Raise TypeError
  end.

(** [OrderBook._process_limit_order] *)
Definition _process_limit_order (order : Order) (b : OrderBook)
  : result (OrderBook * list Trade) :=
  match side order with
  | BUY =>
    '(sells, idx, remaining, ts) ←!
      match_loop (length (sell_orders b)) (λ k, price_le k (price order))
                 (λ best, trade_buying order (entry_key best) best)
                 (sell_orders b) (orders_by_id b) (quantity order) [];
    '(buys, idx) ←!
      (if 0 <? remaining then
         let order' := set_quantity remaining order in
         k ←! price_neg (price order);
         buys ←! Heapq.heappush (buy_orders b) (k, timestamp order, order');
         Ok (buys, assign_quantity order remaining idx)
       else Ok (buy_orders b, idx));
    Ok (record_trades ts (set_sides buys sells idx b), ts)
  | SELL =>
    '(buys, idx, remaining, ts) ←!
      match_loop (length (buy_orders b)) (λ k, price_ge (- k) (price order))
                 (λ best, trade_selling order (- entry_key best) best)
                 (buy_orders b) (orders_by_id b) (quantity order) [];
    '(sells, idx) ←!
      (if 0 <? remaining then
         let order' := set_quantity remaining order in
         match price order with
         | Some p =>
           sells ←! Heapq.heappush (sell_orders b) (p, timestamp order, order');
           Ok (sells, assign_quantity order remaining idx)
         | None =>
           (* a tuple keyed by [None] has no place among priced tuples: a
              LIMIT order without a price is outside the embedding, which
              raises here as the BUY branch does on [-order.price] *)
           Raise TypeError
         end
       else Ok (sell_orders b, idx));
    Ok (record_trades ts (set_sides buys sells idx b), ts)
  end.

(** Position of the first tuple whose order has the given id
    ([for i, (price, timestamp, order) in enumerate(heap)]). *)
Fixpoint find_order (id : string) (heap : list Entry) : option nat :=
  match heap with
  | [] => None
  | e :: heap' =>
    if decide (order_id (entry_order e) = id) then Some O
    else S <$> find_order id heap'
  end.

(** [heap.pop(i); heapq.heapify(heap); break] at the first match. *)
Definition remove_order (id : string) (heap : list Entry) : result (list Entry) :=
  match find_order id heap with
  | Some i => Heapq.heapify (delete i heap)
  | None => Ok heap
  end.

(** [OrderBook._cancel_order] *)
Definition _cancel_order (cancel_order : Order) (b : OrderBook)
  : result (OrderBook * list Trade) :=
  match orders_by_id b !! order_id cancel_order with
  | None => Ok (b, [])
  | Some order_to_cancel =>
    '(buys, sells) ←!
      match side order_to_cancel with
      | BUY =>
        buys ←! remove_order (order_id cancel_order) (buy_orders b);
        Ok (buys, sell_orders b)
      | SELL =>
        sells ←! remove_order (order_id cancel_order) (sell_orders b);
        Ok (buy_orders b, sells)
      end;
    idx ←! dict_del (order_id order_to_cancel) (orders_by_id b);
    Ok (set_sides buys sells idx b, [])
  end.

(** [self.orders_by_id[order.order_id] = order;
     self.client_orders[order.client_id].append(order.order_id)] *)
Definition store_order (order : Order) (b : OrderBook) : OrderBook :=
  mkOrderBook (book_symbol b) (buy_orders b) (sell_orders b)
              (<[order_id order := order]> (orders_by_id b))
              (<[client_id order :=
                   default [] (client_orders b !! client_id order) ++ [order_id order]]>
                 (client_orders b))
              (trades b) (total_volume b) (total_trades b).

(** [OrderBook.add_order] *)
Definition add_order (order : Order) (b : OrderBook) : result (OrderBook * list Trade) :=
  match order_type order with
  | CANCEL => _cancel_order order b
  | MARKET => _process_market_order order (store_order order b)
  | LIMIT => _process_limit_order order (store_order order b)
  end.

(** [OrderBook.get_best_bid] *)
Definition get_best_bid (b : OrderBook) : option (Z * Z) :=
  match buy_orders b with
  | [] => None
  | e :: _ => Some (- entry_key e, quantity (entry_order e))
  end.

(** [OrderBook.get_best_ask] *)
Definition get_best_ask (b : OrderBook) : option (Z * Z) :=
  match sell_orders b with
  | [] => None
  | e :: _ => Some (entry_key e, quantity (entry_order e))
  end.

(** A sequence of requests applied one after the other. *)
Fixpoint run_orders (orders : list Order) (b : OrderBook) : result OrderBook :=
  match orders with
  | [] => Ok b
  | o :: orders' => '(b', _) ←! add_order o b; run_orders orders' b'
  end.


(** ** The ingress parser

    [UDPOrderServer._parse_order] receives the dictionary decoded from a
    request frame.  The embedding reads the frame by its recognised keys
    ([None] is a missing key); the identifiers a frame carries are strings,
    the other values are any decoded JSON value.  JSON numbers are finite and
    in whole ticks, like the prices of the book. *)

#[local] Unset Elimination Schemes.
Inductive json : Type :=
  | JNull
  | JBool (b : bool)
  | JInt (z : Z)
  | JFloat (z : Z)
  | JStr (s : string)
  | JArray (items : list json)
  | JObject (fields : list (string * json)).
#[local] Set Elimination Schemes.

Record Frame : Type := mkFrame {
  f_order_id : option string;
  f_client_id : option string;
  f_symbol : option string;
  f_side : option json;
  f_order_type : option json;
  f_quantity : option json;
  f_price : option json;
}.

(** What the parser takes from its environment: [str.upper], [int] and
    [float] on strings, a fresh [uuid.uuid4()] and [time.time()]. *)
Record Env : Type := mkEnv {
  str_upper : string → string;
  int_of_str : string → option Z;
  float_of_str : string → option Z;
  uuid4 : string;
  time_now : Z;
}.

(** [int(v)] *)
Definition py_int (env : Env) (v : json) : result Z :=
  match v with
  | JInt z | JFloat z => Ok z
  | JBool b => Ok (if b then 1 else 0)
  | JStr s =>
    match int_of_str env s with
    | Some z => Ok z
    | None => Raise ValueError
    end
  | JNull | JArray _ | JObject _ => Raise TypeError
  end.

(** [float(v)] *)
Definition py_float (env : Env) (v : json) : result Z :=
  match v with
  | JInt z | JFloat z => Ok z
  | JBool b => Ok (if b then 1 else 0)
  | JStr s =>
    match float_of_str env s with
    | Some z => Ok z
    | None => Raise ValueError
    end
  | JNull | JArray _ | JObject _ => Raise TypeError
  end.

(** The truth value of [v] in a condition. *)
Definition truthy (v : json) : bool :=
  match v with
  | JNull => false
  | JBool b => b
  | JInt z | JFloat z => negb (z =? 0)
  | JStr s => negb (String.eqb s "")
  | JArray items => match items with [] => false | _ => true end
  | JObject fields => match fields with [] => false | _ => true end
  end.

(** [v.upper()]: only strings have the method. *)
Definition py_upper (env : Env) (v : json) : result string :=
  match v with
  | JStr s => Ok (str_upper env s)
  | _ => Raise AttributeError
  end.

(** [OrderSide(name)] and [OrderType(name)] *)
Definition OrderSide_of (name : string) : result OrderSide :=
  if String.eqb name "BUY" then Ok BUY
  else if String.eqb name "SELL" then Ok SELL
  else Raise ValueError.

Definition OrderType_of (name : string) : result OrderType :=
  if String.eqb name "MARKET" then Ok MARKET
  else if String.eqb name "LIMIT" then Ok LIMIT
  else if String.eqb name "CANCEL" then Ok CANCEL
  else Raise ValueError.

(** [for field in required_fields: if field not in order_data: raise ValueError] *)
Definition required {A : Type} (field : option A) : result A :=
  match field with
  | Some v => Ok v
  | None => Raise ValueError
  end.

(** [float(order_data['price']) if order_data.get('price') else None] *)
Definition read_price (env : Env) (price_v : option json) : result (option Z) :=
  match price_v with
  | Some v => if truthy v then p ←! py_float env v; Ok (Some p) else Ok None
  | None => Ok None
  end.

(** [UDPOrderServer._parse_order] *)
Definition _parse_order (env : Env) (order_data : Frame) : result Order :=
  client ←! required (f_client_id order_data);
  sym ←! required (f_symbol order_data);
  side_v ←! required (f_side order_data);
  type_v ←! required (f_order_type order_data);
  quantity_v ←! required (f_quantity order_data);
  side_name ←! py_upper env side_v;
  s ←! OrderSide_of side_name;
  type_name ←! py_upper env type_v;
  ty ←! OrderType_of type_name;
  q ←! py_int env quantity_v;
  p ←! read_price env (f_price order_data);
  Ok (mkOrder (default (uuid4 env) (f_order_id order_data))
              client sym s ty q p (time_now env)).

(** What becomes of a request frame: a frame the parser rejects is answered
    with an error and goes no further; an order the parser returns is queued,
    and [OrderProcessor.process_order] hands it to [add_order] on the book of
    its symbol. *)
Inductive Handled : Type :=
  | Rejected (e : exn)
  | Matched (o : Order) (r : result (OrderBook * list Trade)).

Definition handle_frame (env : Env) (order_data : Frame) (b : OrderBook) : Handled :=
  match _parse_order env order_data with
  | Raise e => Rejected e
  | Ok o => Matched o (add_order o b)
  end.

(** An ASCII [str.upper], for the examples. *)
Definition ascii_upper (c : Ascii.ascii) : Ascii.ascii :=
  let n := Ascii.nat_of_ascii c in
  if ((97 <=? n) && (n <=? 122))%nat then Ascii.ascii_of_nat (n - 32) else c.

Fixpoint string_upper (s : string) : string :=
  match s with
  | EmptyString => EmptyString
  | String c s' => String (ascii_upper c) (string_upper s')
  end.

Definition sample_env : Env :=
  mkEnv string_upper (λ _, None) (λ _, None) "generated-id" 7.

(** The checks a frame passes for the parser to return the order [o]: the
    five required fields are present, side and order type are strings that
    name a member once upper-cased, the quantity converts with [int] and the
    price, when present and not falsy, converts with [float]. *)
Definition parser_accepts (env : Env) (f : Frame) (o : Order) : Prop :=
  ∃ client sym side_s type_s quantity_v s ty q p,
    f_client_id f = Some client ∧
    f_symbol f = Some sym ∧
    f_side f = Some (JStr side_s) ∧
    f_order_type f = Some (JStr type_s) ∧
    f_quantity f = Some quantity_v ∧
    OrderSide_of (str_upper env side_s) = Ok s ∧
    OrderType_of (str_upper env type_s) = Ok ty ∧
    py_int env quantity_v = Ok q ∧
    read_price env (f_price f) = Ok p ∧
    o = mkOrder (default (uuid4 env) (f_order_id f)) client sym s ty q p (time_now env).

Module ParserSample.
Local Open Scope string_scope.

(** A LIMIT request for a quantity of zero. *)
Definition zero_quantity : Frame :=
  mkFrame (Some "Z1") (Some "c1") (Some "AAPL") (Some (JStr "buy"))
          (Some (JStr "limit")) (Some (JInt 0)) (Some (JFloat 100)).

(** A LIMIT request at a negative price. *)
Definition negative_price : Frame :=
  mkFrame (Some "N1") (Some "c1") (Some "AAPL") (Some (JStr "sell"))
          (Some (JStr "limit")) (Some (JInt 10)) (Some (JFloat (-1))).

(** A request without a quantity. *)
Definition no_quantity : Frame :=
  mkFrame (Some "Q1") (Some "c1") (Some "AAPL") (Some (JStr "buy"))
          (Some (JStr "limit")) None (Some (JFloat 100)).
End ParserSample.

(** ** Views of the book *)

(** [heap[:depth]]: a negative [depth] counts from the end. *)
Definition slice_to {A : Type} (depth : Z) (l : list A) : list A :=
  if 0 <=? depth then take (Z.to_nat depth) l
  else take (length l - Z.to_nat (- depth)) l.

(** One entry of [buy_levels] or [sell_levels]. *)
Record Level : Type := mkLevel {
  lv_price : Z;
  lv_quantity : Z;
  lv_order_id : string;
}.

Record Snapshot : Type := mkSnapshot {
  snap_symbol : string;
  snap_timestamp : Z;
  snap_buy_levels : list Level;
  snap_sell_levels : list Level;
  snap_best_bid : option (Z * Z);
  snap_best_ask : option (Z * Z);
  snap_total_volume : Z;
  snap_total_trades : Z;
}.

Definition buy_level (e : Entry) : Level :=
  mkLevel (- entry_key e) (quantity (entry_order e)) (order_id (entry_order e)).

Definition sell_level (e : Entry) : Level :=
  mkLevel (entry_key e) (quantity (entry_order e)) (order_id (entry_order e)).

(** [OrderBook.get_order_book_snapshot]; [now] is [time.time()]. *)
Definition get_order_book_snapshot (now : Z) (depth : Z) (b : OrderBook) : Snapshot :=
  mkSnapshot (book_symbol b) now
             (buy_level <$> slice_to depth (buy_orders b))
             (sell_level <$> slice_to depth (sell_orders b))
             (get_best_bid b) (get_best_ask b)
             (total_volume b) (total_trades b).

Record Statistics : Type := mkStatistics {
  stat_symbol : string;
  stat_total_orders : nat;
  stat_buy_orders : nat;
  stat_sell_orders : nat;
  stat_total_volume : Z;
  stat_total_trades : Z;
  stat_best_bid : option (Z * Z);
  stat_best_ask : option (Z * Z);
}.

(** [OrderBook.get_statistics] *)
Definition get_statistics (b : OrderBook) : Statistics :=
  mkStatistics (book_symbol b) (size (orders_by_id b))
               (length (buy_orders b)) (length (sell_orders b))
               (total_volume b) (total_trades b)
               (get_best_bid b) (get_best_ask b).

(** ** The order processor

    [OrderProcessor] keeps one book per symbol and counts the orders it has
    processed.  (Its clock fields only drive the throughput log.) *)

Record OrderProcessor : Type := mkOrderProcessor {
  order_books : gmap string OrderBook;
  total_orders_processed : Z;
}.

(** [OrderProcessor()] *)
Definition new_processor : OrderProcessor := mkOrderProcessor ∅ 0.

(** [OrderProcessor.get_or_create_order_book] *)
Definition get_or_create_order_book (sym : string) (p : OrderProcessor)
  : OrderProcessor * OrderBook :=
  match order_books p !! sym with
  | Some b => (p, b)
  | None =>
    (mkOrderProcessor (<[sym := new_book sym]> (order_books p))
                      (total_orders_processed p),
     new_book sym)
  end.

(** The message of an acknowledgement. *)
Inductive Message : Type :=
  | OrderExecuted (n : nat)      (* "Order executed with n trades" *)
  | OrderAccepted                (* "Order accepted" *)
  | ErrorMessage (e : exn).      (* "Error: ..." *)

(** What [process_order] does with an order: it returns
    [(success, message, trades)] and leaves the processor in a new state;
    when [add_order] raises, the exception is caught and the answer is
    [(False, "Error: ...", [])], the book being left as the raising call
    left it, which the embedding does not describe. *)
Inductive Processed : Type :=
  | Answered (p : OrderProcessor) (success : bool) (message : Message)
             (trades : list Trade)
  | Caught (e : exn).

(** [OrderProcessor.process_order] *)
Definition process_order (order : Order) (p : OrderProcessor) : Processed :=
  let '(p1, order_book) := get_or_create_order_book (symbol order) p in
  match add_order order order_book with
  | Ok (order_book', trades) =>
    let p2 := mkOrderProcessor (<[symbol order := order_book']> (order_books p1))
                               (total_orders_processed p1 + 1) in
    match trades with
    | [] => Answered p2 true OrderAccepted []
    | _ => Answered p2 true (OrderExecuted (length trades)) trades
    end
  | Raise e => Caught e
  end.

(** Orders processed one after the other, none raising. *)
Fixpoint process_orders (orders : list Order) (p : OrderProcessor)
  : option OrderProcessor :=
  match orders with
  | [] => Some p
  | o :: orders' =>
    match process_order o p with
    | Answered p' _ _ _ => process_orders orders' p'
    | Caught _ => None
    end
  end.
(** ** Heap order

    The order a heap of tuples is kept in: by price key, then by timestamp.
    It is the order [Heapq.entry_lt] decides whenever it returns. *)

Definition key_le (a b : Entry) : Prop :=
  entry_key a < entry_key b ∨ (entry_key a = entry_key b ∧ entry_time a ≤ entry_time b).

(** Position [j] holds a child of position [i]. *)
Definition is_child (i j : nat) : Prop :=
  j = (2 * i + 1)%nat ∨ j = (2 * i + 2)%nat.

(** Positions of the subtree rooted at [s]. *)
Inductive below (s : nat) : nat → Prop :=
  | below_root : below s s
  | below_child i j : below s i → is_child i j → below s j.

(** Every parent at a position from [s] on is at most its children. *)
Definition heap_from (s : nat) (h : list Entry) : Prop :=
  ∀ i j x y, (s ≤ i)%nat → is_child i j →
    h !! i = Some x → h !! j = Some y → key_le x y.

(** The heap invariant of [heapq]. *)
Definition is_heap (h : list Entry) : Prop := heap_from 0 h.

(** The grandparent of [pos] is at most the children of [pos]. *)
Definition skips (s pos : nat) (h : list Entry) : Prop :=
  ∀ g c x y, (s ≤ g)%nat → is_child g pos → is_child pos c →
    h !! g = Some x → h !! c = Some y → key_le x y.

(** Invariant of [_siftdown]: ordered but for the edge into [pos]. *)
Definition rising (s pos : nat) (h : list Entry) : Prop :=
  (∀ i j x y, (s ≤ i)%nat → is_child i j → j ≠ pos →
     h !! i = Some x → h !! j = Some y → key_le x y)
  ∧ skips s pos h.

(** Invariant of the first phase of [_siftup]: ordered but for the edges
    into and out of [pos]. *)
Definition sinking (s pos : nat) (h : list Entry) : Prop :=
  (∀ i j x y, (s ≤ i)%nat → is_child i j → i ≠ pos → j ≠ pos →
     h !! i = Some x → h !! j = Some y → key_le x y)
  ∧ skips s pos h.

(** ** The book between requests *)

(** A well-formed order: a positive quantity, and a positive price when the
    order is a LIMIT order; a CANCEL request carries neither. *)
Definition well_formed (o : Order) : Prop :=
  match order_type o with
  | CANCEL => True
  | MARKET => 0 < quantity o
  | LIMIT => 0 < quantity o ∧ ∃ p, price o = Some p ∧ 0 < p
  end.

(** Every resting bid is priced below every resting ask. *)
Definition uncrossed (buys sells : list Entry) : Prop :=
  ∀ eb es, eb ∈ buys → es ∈ sells → - entry_key eb < entry_key es.

Definition book_ok (b : OrderBook) : Prop :=
  is_heap (buy_orders b) ∧ is_heap (sell_orders b) ∧
  uncrossed (buy_orders b) (sell_orders b).

(** The tuple [e'] is the tuple [e] whose order may have been reduced. *)
Definition reduced (e' e : Entry) : Prop :=
  entry_key e' = entry_key e ∧ entry_time e' = entry_time e ∧
  ∃ q, entry_order e' = set_quantity q (entry_order e).

(** The side an order rests on, and the side it is matched against. *)
Definition own_side (o : Order) (b : OrderBook) : list Entry :=
  match side o with
  | BUY => buy_orders b
  | SELL => sell_orders b
  end.

Definition opposite_side (o : Order) (b : OrderBook) : list Entry :=
  match side o with
  | BUY => sell_orders b
  | SELL => buy_orders b
  end.

(** The price test of the loop that matches [o]. *)
Definition crosses_for (o : Order) : Z → result bool :=
  match order_type o, side o with
  | LIMIT, BUY => λ k, price_le k (price o)
  | LIMIT, SELL => λ k, price_ge (- k) (price o)
  | _, _ => λ _, Ok true
  end.

(** The resting tuples an incoming order is matched against, each with the
    quantity filled, in the order of the matching loop: the loop of
    [add_order], made to record the tuple instead of the trade. *)
Definition matched_against (o : Order) (b : OrderBook) : result (list (Entry * Z)) :=
  match order_type o with
  | CANCEL => Ok []
  | _ =>
    '(_, _, _, fills) ←!
      match_loop (length (opposite_side o b)) (crosses_for o) pair
                 (opposite_side o b) (orders_by_id (store_order o b)) (quantity o) [];
    Ok fills
  end.

(** The trade [add_order] builds for a fill of [q] against the tuple [e]. *)
Definition trade_for (o : Order) (fill : Entry * Z) : Trade :=
  match side o, order_type o with
  | BUY, _ => trade_buying o (entry_key fill.1) fill.1 fill.2
  | SELL, MARKET => trade_selling o (entry_key fill.1) fill.1 fill.2
  | SELL, _ => trade_selling o (- entry_key fill.1) fill.1 fill.2
  end.

(** The id-index files every order under its own id. *)
Definition keyed (idx : gmap string Order) : Prop :=
  ∀ k o, idx !! k = Some o → order_id o = k.

Definition index_keyed (b : OrderBook) : Prop := keyed (orders_by_id b).


(** The sum of the quantities of a list of trades. *)
Definition traded_quantity (ts : list Trade) : Z :=
  foldr Z.add 0 (trade_quantity <$> ts).

(** A tuple on side [s] carries the price and timestamp of its order. *)
Definition faithful_tuple (s : OrderSide) (e : Entry) : Prop :=
  side (entry_order e) = s ∧
  timestamp (entry_order e) = entry_time e ∧
  price (entry_order e) =
    Some (match s with BUY => - entry_key e | SELL => entry_key e end).

Definition tuples_faithful (b : OrderBook) : Prop :=
  Forall (faithful_tuple BUY) (buy_orders b) ∧
  Forall (faithful_tuple SELL) (sell_orders b).

(** No two tuples of a side agree on both price key and timestamp, so no
    comparison between them falls through to the orders. *)
Definition key_time (e : Entry) : Z * Z := (entry_key e, entry_time e).
Definition no_tie (h : list Entry) : Prop := NoDup (key_time <$> h).

(** Sample requests. *)
Module Sample.
Local Open Scope string_scope.

Definition limit (id : string) (s : OrderSide) (q p t : Z) : Order :=
  mkOrder id "c1" "AAPL" s LIMIT q (Some p) t.
Definition market (id : string) (s : OrderSide) (q t : Z) : Order :=
  mkOrder id "c2" "AAPL" s MARKET q None t.
Definition cancel (id : string) : Order :=
  mkOrder id "c1" "AAPL" BUY CANCEL 0 None 0.

Definition after (orders : list Order) : option OrderBook :=
  match run_orders orders (new_book "AAPL") with
  | Ok b => Some b
  | Raise _ => None
  end.

Definition fills (o : Order) (b : option OrderBook) : option (list Trade) :=
  match b with
  | Some b => match add_order o b with Ok (_, ts) => Some ts | Raise _ => None end
  | None => None
  end.
End Sample.

Module CrossSample.
Local Open Scope string_scope.
(** Limit orders on both sides, a cancel, a crossing limit order and a
    market order. *)
Definition orders : list Order :=
  [Sample.limit "S1" SELL 10 101 1; Sample.limit "B1" BUY 10 100 2;
   Sample.limit "S2" SELL 10 102 3; Sample.limit "B2" BUY 5 99 4;
   Sample.cancel "B1"; Sample.limit "B3" BUY 4 101 5;
   Sample.market "M1" BUY 6 6].
End CrossSample.

Module PrioritySample.
Local Open Scope string_scope.
Definition history : list Order :=
  [Sample.limit "B1" BUY 10 151 1; Sample.limit "B2" BUY 10 151 2].
Definition incoming : Order := Sample.limit "S1" SELL 15 151 3.
Definition earlier : Entry := (-151, 1, Sample.limit "B1" BUY 10 151 1).
Definition later : Entry := (-151, 2, Sample.limit "B2" BUY 10 151 2).
End PrioritySample.

(** ** Top of book as the specification words it

    Following the specification: the best price of a side together with the
    quantity aggregated across all resting orders whose price equals that
    best price.  (On the buy heap the key is the negated price, so the best
    price of either side is at the least key.) *)

Definition best_key (h : list Entry) : option Z :=
  match h with
  | [] => None
  | e :: h' => Some (foldr (λ e' k, Z.min (entry_key e') k) (entry_key e) h')
  end.

Definition level_quantity (k : Z) (h : list Entry) : Z :=
  foldr Z.add 0
        ((λ e, quantity (entry_order e)) <$> filter (λ e, entry_key e = k) h).


Definition aggregated_best_ask (b : OrderBook) : option (Z * Z) :=
  match best_key (sell_orders b) with
  | Some k => Some (k, level_quantity k (sell_orders b))
  | None => None
  end.


(** ** Requests that cannot collide

    The orders of a history that are placed (LIMIT and MARKET), and the
    invariant a book keeps when they carry pairwise distinct ids and
    timestamps: on each side timestamps and ids are distinct and among those
    seen, and the index files each resting order's id under an order of
    that side. *)

Definition placed (history : list Order) : list Order :=
  filter (λ o, order_type o ≠ CANCEL) history.

Definition entry_id (e : Entry) : string := order_id (entry_order e).

Definition indexed (s : OrderSide) (idx : gmap string Order) (e : Entry) : Prop :=
  ∃ o, idx !! entry_id e = Some o ∧ side o = s.

Definition side_sound (s : OrderSide) (seen : list Order) (idx : gmap string Order)
    (h : list Entry) : Prop :=
  NoDup (entry_time <$> h) ∧
  NoDup (entry_id <$> h) ∧
  Forall (λ e, entry_time e ∈ timestamp <$> seen ∧
               entry_id e ∈ order_id <$> seen ∧
               indexed s idx e) h.

Definition sound (seen : list Order) (b : OrderBook) : Prop :=
  index_keyed b ∧
  side_sound BUY seen (orders_by_id b) (buy_orders b) ∧
  side_sound SELL seen (orders_by_id b) (sell_orders b).

(** ** Quantities and prices of a side *)

(** The quantity resting on a side. *)
Definition side_quantity (h : list Entry) : Z :=
  foldr Z.add 0 ((λ e, quantity (entry_order e)) <$> h).

(** The orders of a history for one symbol, and those of one client. *)
Definition for_symbol (sym : string) (history : list Order) : list Order :=
  filter (λ o, symbol o = sym) history.

Definition by_client (client : string) (history : list Order) : list Order :=
  filter (λ o, client_id o = client) history.

(** The id of the resting order in a trade of the incoming order [o]. *)
Definition passive_id (o : Order) (t : Trade) : string :=
  match side o with
  | BUY => sell_order_id t
  | SELL => buy_order_id t
  end.

(** The id of the incoming order in a trade of the incoming order [o]. *)
Definition aggressor_id (o : Order) (t : Trade) : string :=
  match side o with
  | BUY => buy_order_id t
  | SELL => sell_order_id t
  end.
(** * Properties *)

(** ** The result monad *)

Lemma bind_Ok {A B : Type} (m : result A) (k : A → result B) (b : B) :
  result_bind m k = Ok b → ∃ a, m = Ok a ∧ k a = Ok b.
Proof. destruct m as [a|e]; simpl; [eauto | discriminate]. Qed.

Lemma Ok_inj {A : Type} (a b : A) : Ok a = Ok b → a = b.
Proof. congruence. Qed.

Ltac inv_bind H :=
  let a := fresh "r" in
  let H1 := fresh "E" in
  apply bind_Ok in H as (a & H1 & H).

(** ** Heap positions *)

Ltac halves :=
  repeat match goal with
  | |- context [(?a / 2)%nat] =>
      let H := fresh in
      let H' := fresh in
      pose proof (Nat.div_mod_eq a 2) as H;
      pose proof (Nat.mod_upper_bound a 2 ltac:(lia)) as H';
      generalize dependent (a / 2)%nat; generalize dependent (a mod 2)%nat; intros
  | H0 : context [(?a / 2)%nat] |- _ =>
      let H := fresh in
      let H' := fresh in
      pose proof (Nat.div_mod_eq a 2) as H;
      pose proof (Nat.mod_upper_bound a 2 ltac:(lia)) as H';
      generalize dependent (a / 2)%nat; generalize dependent (a mod 2)%nat; intros
  end; lia.

Lemma parent_is_parent (j : nat) : (0 < j)%nat → is_child ((j - 1) / 2) j.
Proof. unfold is_child. intros. halves. Qed.

Lemma child_parent (i j : nat) : is_child i j → ((j - 1) / 2)%nat = i.
Proof. unfold is_child. intros. halves. Qed.

Lemma half_le (n i : nat) : (n / 2 ≤ i)%nat → (n ≤ 2 * i + 1)%nat.
Proof. intros. halves. Qed.

Lemma below_le (s p : nat) : below s p → (s ≤ p)%nat.
Proof. induction 1 as [|i j _ IH Hc]; [lia | unfold is_child in Hc; lia]. Qed.

Lemma below_parent (s p : nat) : below s p → (s < p)%nat → below s ((p - 1) / 2).
Proof.
  intros Hb Hlt. destruct Hb as [|i j Hi Hc]; [lia|].
  by rewrite (child_parent i j Hc).
Qed.

(** ** The order decided by tuple comparison *)

Lemma key_le_refl (a : Entry) : key_le a a.
Proof. unfold key_le. lia. Qed.

Lemma key_le_trans (a b c : Entry) : key_le a b → key_le b c → key_le a c.
Proof. unfold key_le. lia. Qed.

Lemma entry_lt_true (a b : Entry) : Heapq.entry_lt a b = Ok true → key_le a b.
Proof.
  unfold Heapq.entry_lt, key_le. intros H.
  repeat case_bool_decide; simplify_eq; lia.
Qed.

Lemma entry_lt_false (a b : Entry) : Heapq.entry_lt a b = Ok false → key_le b a.
Proof.
  unfold Heapq.entry_lt, key_le. intros H.
  repeat case_bool_decide; simplify_eq; lia.
Qed.

(** ** Exchanging two positions *)

Lemma swap_lookup (h : list Entry) (a b : nat) (x y : Entry) (k : nat) :
  h !! a = Some x → h !! b = Some y → a ≠ b →
  <[b:=x]> (<[a:=y]> h) !! k =
    if decide (k = b) then Some x else if decide (k = a) then Some y else h !! k.
Proof.
  intros Ha Hb Hne.
  repeat case_decide; subst.
  - apply list_lookup_insert_eq. rewrite length_insert. by eapply lookup_lt_Some.
  - rewrite list_lookup_insert_ne by done.
    apply list_lookup_insert_eq. by eapply lookup_lt_Some.
  - by rewrite !list_lookup_insert_ne by done.
Qed.

(** ** [_siftdown] *)

Ltac swapped Ha Hb :=
  repeat match goal with
  | H : <[_:=_]> (<[_:=_]> _) !! _ = Some _ |- _ =>
      rewrite (swap_lookup _ _ _ _ _ _ Ha Hb) in H by done
  end.

Lemma siftdown_loop_spec (fuel : nat) :
  ∀ (h : list Entry) (s pos : nat) (h' : list Entry),
    (pos ≤ fuel)%nat → below s pos → rising s pos h →
    Heapq.siftdown_loop fuel h s pos = Ok h' →
    heap_from s h' ∧ h' ≡ₚ h.
Proof.
  induction fuel as [|fuel IH]; intros h s pos h' Hfuel Hb [Hord Hskip] Hrun;
    cbn [Heapq.siftdown_loop] in Hrun.
  - simplify_eq. split; [|done].
    intros i j x y Hi Hc. apply Hord; [done..|]. unfold is_child in Hc. lia.
  - destruct (s <? pos)%nat eqn:Hlt.
    2:{ simplify_eq. split; [|done]. apply Nat.ltb_ge in Hlt.
        intros i j x y Hi Hc. apply Hord; [done..|]. unfold is_child in Hc. lia. }
    apply Nat.ltb_lt in Hlt.
    pose proof (parent_is_parent pos ltac:(lia)) as Hpc.
    pose proof (below_parent s pos Hb Hlt) as Hbp.
    pose proof (below_le _ _ Hbp) as Hsp.
    set (pp := ((pos - 1) / 2)%nat) in *.
    assert (pp ≠ pos) as Hne by (unfold is_child in Hpc; lia).
    destruct (h !! pos) as [newitem|] eqn:Hn; [|by simplify_eq/=].
    destruct (h !! pp) as [parent|] eqn:Hp; [|by simplify_eq/=].
    inv_bind Hrun. destruct r.
    + (* the item moves up *)
      apply entry_lt_true in E.
      apply IH in Hrun as [Hheap Hperm]; [| unfold is_child in Hpc; lia | done |].
      { split; [done|]. rewrite Hperm. by apply Permutation_insert_swap. }
      split.
      * intros i j x y Hi Hc Hj Hx Hy.
        swapped Hn Hp. repeat case_decide; simplify_eq; try done.
        all: try (exfalso; unfold is_child in *; lia).
        all: try (exfalso; apply child_parent in Hc; unfold pp in *; congruence).
        all: first [ by eapply Hord; eauto
                   | by eapply (Hskip pp); eauto
                   | by eapply key_le_trans; [exact E|]; eapply (Hord pp); eauto ].
      * intros g c x y Hg Hgc Hcc Hx Hy.
        assert (g ≠ pp ∧ g ≠ pos) as [? ?] by (unfold is_child in *; lia).
        swapped Hn Hp.
        assert (key_le x parent) as Hxp.
        { repeat case_decide; simplify_eq; eapply (Hord g pp); eauto. }
        repeat case_decide; simplify_eq; try done.
        all: try (exfalso; unfold is_child in *; lia).
        eapply key_le_trans; [exact Hxp|]. eapply (Hord pp c); eauto.
    + (* the item stays *)
      apply entry_lt_false in E. simplify_eq. split; [|done].
      intros i j x y Hi Hc Hx Hy.
      destruct (decide (j = pos)) as [->|Hj].
      * apply child_parent in Hc. fold pp in Hc. by simplify_eq.
      * eapply (Hord i j); eauto.
Qed.

Lemma siftdown_spec (h : list Entry) (s pos : nat) (h' : list Entry) :
  below s pos → rising s pos h → Heapq.siftdown h s pos = Ok h' →
  heap_from s h' ∧ h' ≡ₚ h.
Proof. intros. by eapply (siftdown_loop_spec pos). Qed.

(** ** [_siftup] *)

Lemma siftup_loop_spec (fuel : nat) :
  ∀ (h : list Entry) (s pos : nat) (h' : list Entry) (leaf : nat),
    (length h ≤ fuel + pos)%nat → below s pos → sinking s pos h →
    Heapq.siftup_loop fuel h pos = Ok (h', leaf) →
    below s leaf ∧ sinking s leaf h' ∧ (length h' ≤ 2 * leaf + 1)%nat ∧ h' ≡ₚ h.
Proof.
  induction fuel as [|fuel IH]; intros h s pos h' leaf Hfuel Hb [Hord Hskip] Hrun;
    cbn [Heapq.siftup_loop] in Hrun.
  - simplify_eq. split_and!; try done. lia.
  - destruct (2 * pos + 1 <? length h)%nat eqn:Hlt.
    2:{ simplify_eq. apply Nat.ltb_ge in Hlt. by split_and!. }
    apply Nat.ltb_lt in Hlt.
    pose proof (below_le _ _ Hb) as Hsp.
    inv_bind Hrun. rename r into c.
    destruct (h !! c) as [child|] eqn:Hc; [|by simplify_eq/=].
    destruct (h !! pos) as [item|] eqn:Hi; [|by simplify_eq/=].
    assert (is_child pos c ∧
            ∀ j y, is_child pos j → j ≠ c → h !! j = Some y → key_le child y)
      as [Hpc Hmin].
    { destruct (2 * pos + 1 + 1 <? length h)%nat eqn:Hr.
      - destruct (h !! (2 * pos + 1)%nat) as [l|] eqn:Hl; [|by simplify_eq/=].
        destruct (h !! (2 * pos + 1 + 1)%nat) as [r|] eqn:Hrr; [|by simplify_eq/=].
        inv_bind E. destruct r0; apply Ok_inj in E; subst c.
        + apply entry_lt_true in E0. rewrite Hl in Hc. apply (inj Some) in Hc; subst child.
          split; [unfold is_child; lia|].
          intros j y [->| ->] Hj Hy; [done|].
          replace (2 * pos + 2)%nat with (2 * pos + 1 + 1)%nat in Hy by lia.
          rewrite Hrr in Hy. apply (inj Some) in Hy. by subst y.
        + apply entry_lt_false in E0. rewrite Hrr in Hc. apply (inj Some) in Hc; subst child.
          split; [unfold is_child; lia|].
          intros j y [->| ->] Hj Hy; [|lia].
          rewrite Hl in Hy. apply (inj Some) in Hy. by subst y.
      - apply Ok_inj in E; subst c. apply Nat.ltb_ge in Hr. split; [unfold is_child; lia|].
        intros j y [->| ->] Hj Hy; [done|].
        apply lookup_lt_Some in Hy. lia. }
    assert (c ≠ pos) as Hne by (unfold is_child in Hpc; lia).
    apply IH with (s := s) in Hrun as (Hbl & Hsink & Hlen & Hperm).
    { split_and!; try done.
      rewrite Hperm. by apply Permutation_insert_swap. }
    { rewrite !length_insert. unfold is_child in Hpc. lia. }
    { by eapply below_child. }
    split.
    + intros i j x y Hsi Hij Hic Hjc Hx Hy.
      swapped Hi Hc. repeat case_decide; simplify_eq; try done.
      all: try (exfalso; unfold is_child in *; lia).
      all: first [ by eapply Hmin; eauto
                 | by eapply (Hskip _ c); eauto
                 | by eapply Hord; eauto ].
    + intros g d x y Hg Hgc Hcd Hx Hy.
      assert (g = pos) as ->.
      { apply child_parent in Hgc. apply child_parent in Hpc. congruence. }
      assert (d ≠ c ∧ d ≠ pos) as [? ?] by (unfold is_child in *; lia).
      swapped Hi Hc. repeat case_decide; simplify_eq.
      eapply (Hord c d); eauto. unfold is_child in Hpc; lia.
Qed.

Lemma siftup_spec (h : list Entry) (s : nat) (h' : list Entry) :
  heap_from (S s) h → Heapq.siftup h s = Ok h' → heap_from s h' ∧ h' ≡ₚ h.
Proof.
  intros Hh Hrun. unfold Heapq.siftup in Hrun.
  inv_bind Hrun. destruct r as [h1 leaf].
  apply siftup_loop_spec with (s := s) in E as (Hbl & [Hord Hskip] & Hlen & Hperm).
  - apply siftdown_spec in Hrun as [Hheap Hperm']; [|done|].
    + split; [done|]. by rewrite Hperm'.
    + split; [|done]. intros i j x y Hi Hc Hj Hx Hy.
      destruct (decide (i = leaf)) as [->|Hil].
      * apply lookup_lt_Some in Hy. unfold is_child in Hc. lia.
      * eapply (Hord i j); eauto.
  - lia.
  - constructor.
  - split.
    + intros i j x y Hi Hc Hne _. apply (Hh i j); [lia|done].
    + intros g c x y Hg Hgc. unfold is_child in Hgc. lia.
Qed.

(** ** The lists stay permutations, whatever they held *)

Lemma siftdown_loop_perm (fuel : nat) :
  ∀ (h : list Entry) (s pos : nat) (h' : list Entry),
    Heapq.siftdown_loop fuel h s pos = Ok h' → h' ≡ₚ h.
Proof.
  induction fuel as [|fuel IH]; intros h s pos h' Hrun;
    cbn [Heapq.siftdown_loop] in Hrun.
  - by simplify_eq.
  - destruct (s <? pos)%nat; [|by simplify_eq].
    destruct (h !! pos) as [newitem|] eqn:Hn; [|by simplify_eq/=].
    destruct (h !! ((pos - 1) / 2)%nat) as [parent|] eqn:Hp; [|by simplify_eq/=].
    inv_bind Hrun. destruct r; [|by simplify_eq].
    apply IH in Hrun. rewrite Hrun. by apply Permutation_insert_swap.
Qed.

Lemma siftup_loop_perm (fuel : nat) :
  ∀ (h : list Entry) (pos : nat) (h' : list Entry) (leaf : nat),
    Heapq.siftup_loop fuel h pos = Ok (h', leaf) → h' ≡ₚ h.
Proof.
  induction fuel as [|fuel IH]; intros h pos h' leaf Hrun;
    cbn [Heapq.siftup_loop] in Hrun.
  - by simplify_eq.
  - destruct (2 * pos + 1 <? length h)%nat; [|by simplify_eq].
    inv_bind Hrun. rename r into c.
    destruct (h !! c) as [child|] eqn:Hc; [|by simplify_eq/=].
    destruct (h !! pos) as [item|] eqn:Hi; [|by simplify_eq/=].
    apply IH in Hrun. rewrite Hrun. by apply Permutation_insert_swap.
Qed.

Lemma siftup_perm (h : list Entry) (pos : nat) (h' : list Entry) :
  Heapq.siftup h pos = Ok h' → h' ≡ₚ h.
Proof.
  unfold Heapq.siftup, Heapq.siftdown. intros Hrun.
  inv_bind Hrun. destruct r as [h1 leaf].
  apply siftup_loop_perm in E. apply siftdown_loop_perm in Hrun.
  by rewrite Hrun.
Qed.

Lemma heappush_perm (h : list Entry) (e : Entry) (h' : list Entry) :
  Heapq.heappush h e = Ok h' → h' ≡ₚ e :: h.
Proof.
  unfold Heapq.heappush, Heapq.siftdown. intros Hrun.
  apply siftdown_loop_perm in Hrun. rewrite Hrun.
  by rewrite (comm (++)).
Qed.

(** The shape of a list from which [heappop] returns. *)
Lemma heappop_inv (h : list Entry) (x : Entry) (h' : list Entry) :
  Heapq.heappop h = Ok (x, h') →
  (h = [x] ∧ h' = []) ∨
  (∃ rest lastelt, h = x :: rest ++ [lastelt] ∧
                   Heapq.siftup (lastelt :: rest) 0 = Ok h').
Proof.
  unfold Heapq.heappop. intros Hrun.
  destruct (last h) as [lastelt|] eqn:Hlast; [|by simplify_eq].
  apply last_Some in Hlast as [front ->].
  rewrite length_app, Nat.add_sub, take_app_length in Hrun.
  destruct front as [|returnitem rest].
  - left. by simplify_eq.
  - right. inv_bind Hrun. simplify_eq. eauto.
Qed.

Lemma heappop_perm (h : list Entry) (x : Entry) (h' : list Entry) :
  Heapq.heappop h = Ok (x, h') → head h = Some x ∧ h ≡ₚ x :: h'.
Proof.
  intros [[-> ->]|(rest & lastelt & -> & Hrun)]%heappop_inv; [done|].
  split; [done|]. apply siftup_perm in Hrun. rewrite Hrun.
  constructor. by rewrite (comm (++)).
Qed.

Lemma heapify_loop_perm (i : nat) :
  ∀ (h h' : list Entry), Heapq.heapify_loop i h = Ok h' → h' ≡ₚ h.
Proof.
  induction i as [|i IH]; intros h h' Hrun; simpl in Hrun.
  - by simplify_eq.
  - inv_bind Hrun. apply siftup_perm in E. apply IH in Hrun. by rewrite Hrun.
Qed.

Lemma heapify_perm (h h' : list Entry) : Heapq.heapify h = Ok h' → h' ≡ₚ h.
Proof. apply heapify_loop_perm. Qed.

(** ** The heap invariant *)

Lemma is_heap_nil : is_heap [].
Proof. intros i j x y _ _ Hx. by rewrite lookup_nil in Hx. Qed.

(** Nothing below the first half of the list has children. *)
Lemma heap_from_half (h : list Entry) : heap_from (length h / 2) h.
Proof.
  intros i j x y Hi Hc _ Hy. apply lookup_lt_Some in Hy.
  apply half_le in Hi. unfold is_child in Hc. lia.
Qed.

(** The invariant looks at price keys and timestamps only. *)
Lemma heap_from_same_keys (s : nat) (h1 h2 : list Entry) :
  Forall2 (λ a b, entry_key a = entry_key b ∧ entry_time a = entry_time b) h1 h2 →
  heap_from s h1 → heap_from s h2.
Proof.
  intros Hk Hh i j x y Hi Hc Hx Hy.
  destruct (Forall2_lookup_r _ _ _ _ _ Hk Hx) as (x' & Hx' & Hkx & Htx).
  destruct (Forall2_lookup_r _ _ _ _ _ Hk Hy) as (y' & Hy' & Hky & Hty).
  specialize (Hh i j x' y' Hi Hc Hx' Hy'). unfold key_le in *. lia.
Qed.

Lemma is_heap_root_min (h : list Entry) (r y : Entry) :
  is_heap h → head h = Some r → y ∈ h → key_le r y.
Proof.
  intros Hh Hr [j Hy]%list_elem_of_lookup. rewrite head_lookup in Hr.
  revert y Hy. induction (lt_wf j) as [j _ IH]. intros y Hy.
  destruct (decide (j = 0%nat)) as [->|Hj].
  - simplify_eq. apply key_le_refl.
  - pose proof (parent_is_parent j ltac:(lia)) as Hc.
    assert (((j - 1) / 2 < j)%nat) as Hlt by (unfold is_child in Hc; lia).
    destruct (lookup_lt_is_Some_2 h ((j - 1) / 2)%nat) as [p Hp].
    { apply lookup_lt_Some in Hy. lia. }
    eapply key_le_trans; [by eapply IH|].
    by eapply (Hh ((j - 1) / 2)%nat j); [lia|..].
Qed.

Lemma heappush_heap (h : list Entry) (e : Entry) (h' : list Entry) :
  is_heap h → Heapq.heappush h e = Ok h' → is_heap h'.
Proof.
  intros Hh Hrun. unfold Heapq.heappush in Hrun.
  apply siftdown_spec in Hrun as [Hheap _]; [done| |].
  - clear. induction (lt_wf (length h)) as [n _ IH].
    destruct (decide (n = 0%nat)) as [->|Hn]; [constructor|].
    eapply below_child; [eapply (IH ((n - 1) / 2)%nat)|by apply parent_is_parent; lia].
    pose proof (parent_is_parent n ltac:(lia)) as Hc. unfold is_child in Hc. lia.
  - split.
    + intros i j x y _ Hc Hj Hx Hy.
      assert ((j < length h)%nat) as Hjl.
      { apply lookup_lt_Some in Hy. rewrite length_app in Hy. simpl in Hy. lia. }
      rewrite lookup_app_l in Hx by (unfold is_child in Hc; lia).
      rewrite lookup_app_l in Hy by done.
      by eapply (Hh i j); [lia|..].
    + intros g c x y _ _ Hc _ Hy. apply lookup_lt_Some in Hy.
      rewrite length_app in Hy. simpl in Hy. unfold is_child in Hc. lia.
Qed.

Lemma heappop_heap (h : list Entry) (x : Entry) (h' : list Entry) :
  is_heap h → Heapq.heappop h = Ok (x, h') → is_heap h'.
Proof.
  intros Hh [[-> ->]|(rest & lastelt & -> & Hrun)]%heappop_inv; [apply is_heap_nil|].
  apply siftup_spec in Hrun as [Hheap _]; [done|].
  intros i j a b Hi Hc Ha Hb.
  destruct i as [|i]; [lia|]. destruct j as [|j]; [unfold is_child in Hc; lia|].
  simpl in Ha, Hb. eapply (Hh (S i) (S j)); [lia|done|..]; simpl.
  - by apply lookup_app_l_Some.
  - by apply lookup_app_l_Some.
Qed.

Lemma heapify_loop_heap (i : nat) :
  ∀ (h h' : list Entry),
    heap_from i h → Heapq.heapify_loop i h = Ok h' → is_heap h'.
Proof.
  induction i as [|i IH]; intros h h' Hh Hrun; simpl in Hrun.
  - by simplify_eq.
  - inv_bind Hrun. apply siftup_spec in E as [Hheap _]; [|done]. by eapply IH.
Qed.

Lemma heapify_heap (h h' : list Entry) : Heapq.heapify h = Ok h' → is_heap h'.
Proof. apply heapify_loop_heap, heap_from_half. Qed.


(** ** The fuel of the loops is enough

    Both sifting loops are run with as many steps as they can take; more
    fuel changes nothing. *)

Lemma siftdown_loop_fuel (f1 : nat) :
  ∀ (f2 : nat) (h : list Entry) (s pos : nat),
    (pos ≤ f1)%nat → (pos ≤ f2)%nat →
    Heapq.siftdown_loop f1 h s pos = Heapq.siftdown_loop f2 h s pos.
Proof.
  induction f1 as [|f1 IH]; intros f2 h s pos H1 H2.
  - assert (pos = 0%nat) as -> by lia. by destruct f2.
  - destruct f2 as [|f2].
    { assert (pos = 0%nat) as -> by lia. done. }
    cbn [Heapq.siftdown_loop].
    destruct (s <? pos)%nat eqn:Hlt; [|done]. apply Nat.ltb_lt in Hlt.
    pose proof (parent_is_parent pos ltac:(lia)) as Hpc.
    set (pp := ((pos - 1) / 2)%nat) in *.
    destruct (h !! pos) as [newitem|]; [|done].
    destruct (h !! pp) as [parent|]; [|done].
    destruct (Heapq.entry_lt newitem parent) as [[|]|]; simpl; try done.
    apply IH; unfold is_child in Hpc; lia.
Qed.

Lemma siftup_loop_fuel (f1 : nat) :
  ∀ (f2 : nat) (h : list Entry) (pos : nat),
    (length h ≤ f1 + pos)%nat → (length h ≤ f2 + pos)%nat →
    Heapq.siftup_loop f1 h pos = Heapq.siftup_loop f2 h pos.
Proof.
  assert (∀ f (h : list Entry) pos,
            (length h ≤ pos)%nat → Heapq.siftup_loop f h pos = Ok (h, pos)) as Hend.
  { intros [|f] h pos Hlen; [done|]. cbn [Heapq.siftup_loop].
    destruct (2 * pos + 1 <? length h)%nat eqn:Hlt; [|done].
    apply Nat.ltb_lt in Hlt. lia. }
  induction f1 as [|f1 IH]; intros f2 h pos H1 H2.
  { by rewrite !Hend by lia. }
  destruct f2 as [|f2].
  { by rewrite !Hend by lia. }
  cbn [Heapq.siftup_loop].
  destruct (2 * pos + 1 <? length h)%nat eqn:Hlt; [|done].
  apply Nat.ltb_lt in Hlt.
  destruct (2 * pos + 1 + 1 <? length h)%nat.
  - destruct (h !! (2 * pos + 1)%nat) as [l|] eqn:Hl; [|done].
    destruct (h !! (2 * pos + 1 + 1)%nat) as [r|] eqn:Hr; [|done].
    destruct (Heapq.entry_lt l r) as [[|]|]; cbn [result_bind]; try done.
    + rewrite Hl. destruct (h !! pos) as [item|]; [|done].
      apply IH; rewrite !length_insert; lia.
    + rewrite Hr. destruct (h !! pos) as [item|]; [|done].
      apply IH; rewrite !length_insert; lia.
  - cbn [result_bind]. destruct (h !! (2 * pos + 1)%nat) as [child|]; [|done].
    destruct (h !! pos) as [item|]; [|done].
    apply IH; rewrite !length_insert; lia.
Qed.

(** ** Without ties, the heap operations return *)

Lemma entry_lt_no_tie (a b : Entry) :
  key_time a ≠ key_time b → ∃ c, Heapq.entry_lt a b = Ok c.
Proof.
  unfold key_time, Heapq.entry_lt. intros Hne.
  repeat case_bool_decide; eauto. congruence.
Qed.

Lemma no_tie_lookup (h : list Entry) (i j : nat) (a b : Entry) :
  no_tie h → h !! i = Some a → h !! j = Some b → i ≠ j → key_time a ≠ key_time b.
Proof.
  intros Hnd Ha Hb Hij Heq. apply Hij.
  eapply (NoDup_lookup _ i j (key_time a) Hnd); rewrite list_lookup_fmap.
  - by rewrite Ha.
  - by rewrite Hb, Heq.
Qed.

Lemma no_tie_perm (h h' : list Entry) : h' ≡ₚ h → no_tie h → no_tie h'.
Proof. unfold no_tie. by intros ->. Qed.

Lemma no_tie_delete (h : list Entry) (i : nat) : no_tie h → no_tie (delete i h).
Proof.
  unfold no_tie. intros Hnd. eapply sublist_NoDup; [done|].
  apply fmap_sublist, sublist_delete.
Qed.

Lemma siftdown_loop_total (fuel : nat) :
  ∀ (h : list Entry) (s pos : nat),
    no_tie h → (pos < length h)%nat → ∃ h', Heapq.siftdown_loop fuel h s pos = Ok h'.
Proof.
  induction fuel as [|fuel IH]; intros h s pos Hnd Hpos; cbn [Heapq.siftdown_loop];
    [eauto|].
  destruct (s <? pos)%nat eqn:Hlt; [|eauto]. apply Nat.ltb_lt in Hlt.
  pose proof (parent_is_parent pos ltac:(lia)) as Hpc.
  set (pp := ((pos - 1) / 2)%nat) in *.
  assert ((pp < pos)%nat) as Hpp by (unfold is_child in Hpc; lia).
  destruct (lookup_lt_is_Some_2 h pos Hpos) as [newitem Hn].
  destruct (lookup_lt_is_Some_2 h pp ltac:(lia)) as [parent Hp].
  rewrite Hn, Hp.
  destruct (entry_lt_no_tie newitem parent) as [c ->].
  { eapply no_tie_lookup; eauto. lia. }
  simpl. destruct c; [|eauto]. apply IH.
  - eapply no_tie_perm; [|done]. by apply Permutation_insert_swap.
  - rewrite !length_insert. lia.
Qed.

Lemma siftup_loop_total (fuel : nat) :
  ∀ (h : list Entry) (pos : nat),
    no_tie h → (pos < length h)%nat →
    ∃ h' leaf, Heapq.siftup_loop fuel h pos = Ok (h', leaf) ∧ (leaf < length h')%nat.
Proof.
  induction fuel as [|fuel IH]; intros h pos Hnd Hpos; cbn [Heapq.siftup_loop];
    [eauto|].
  destruct (2 * pos + 1 <? length h)%nat eqn:Hlt; [|eauto]. apply Nat.ltb_lt in Hlt.
  assert (∃ c, (if (2 * pos + 1 + 1 <? length h)%nat
                then match h !! (2 * pos + 1)%nat with
                     | Some l =>
                       match h !! (2 * pos + 1 + 1)%nat with
                       | Some r =>
                         result_bind (Heapq.entry_lt l r)
                           (λ lt : bool,
                              Ok (if lt then (2 * pos + 1)%nat else (2 * pos + 1 + 1)%nat))
                       | None => Raise IndexError
                       end
                     | None => Raise IndexError
                     end
                else Ok (2 * pos + 1)%nat) = Ok c
               ∧ (pos < c < length h)%nat) as (c & -> & Hc).
  { destruct (2 * pos + 1 + 1 <? length h)%nat eqn:Hr.
    - apply Nat.ltb_lt in Hr.
      destruct (lookup_lt_is_Some_2 h (2 * pos + 1)%nat Hlt) as [l Hl].
      destruct (lookup_lt_is_Some_2 h (2 * pos + 1 + 1)%nat Hr) as [r Hrr].
      rewrite Hl, Hrr.
      destruct (entry_lt_no_tie l r) as [lt ->].
      { eapply no_tie_lookup; eauto. lia. }
      simpl. destruct lt; eexists; (split; [done|lia]).
    - eexists; split; [done|lia]. }
  simpl.
  destruct (lookup_lt_is_Some_2 h c ltac:(lia)) as [child Hch].
  destruct (lookup_lt_is_Some_2 h pos Hpos) as [item Hi].
  rewrite Hch, Hi. apply IH.
  - eapply no_tie_perm; [|done]. by apply Permutation_insert_swap.
  - rewrite !length_insert. lia.
Qed.

Lemma siftup_total (h : list Entry) (pos : nat) :
  no_tie h → (pos < length h)%nat → ∃ h', Heapq.siftup h pos = Ok h'.
Proof.
  intros Hnd Hpos. unfold Heapq.siftup, Heapq.siftdown.
  destruct (siftup_loop_total (length h) h pos Hnd Hpos) as (h1 & leaf & Hrun & Hleaf).
  rewrite Hrun. simpl. apply siftdown_loop_total; [|done].
  eapply no_tie_perm; [|done]. by eapply siftup_loop_perm.
Qed.

Lemma heapify_loop_total (i : nat) :
  ∀ h : list Entry, no_tie h → (i ≤ length h)%nat → ∃ h', Heapq.heapify_loop i h = Ok h'.
Proof.
  induction i as [|i IH]; intros h Hnd Hi; simpl; [eauto|].
  destruct (siftup_total h i Hnd ltac:(lia)) as [h1 Hrun]. rewrite Hrun. simpl.
  pose proof (siftup_perm _ _ _ Hrun) as Hperm.
  apply IH; [by eapply no_tie_perm|]. rewrite (Permutation_length Hperm). lia.
Qed.

Lemma heapify_total (h : list Entry) : no_tie h → ∃ h', Heapq.heapify h = Ok h'.
Proof.
  intros Hnd. apply heapify_loop_total; [done|].
  pose proof (Nat.div_mod_eq (length h) 2). lia.
Qed.

Lemma remove_order_total (id : string) (h : list Entry) :
  no_tie h → ∃ h', remove_order id h = Ok h'.
Proof.
  intros Hnd. unfold remove_order.
  destruct (find_order id h) as [i|]; [|eauto].
  by apply heapify_total, no_tie_delete.
Qed.

(** ** The matching loop *)

Lemma bind_assoc {A B C : Type} (m : result A) (f : A → result B) (g : B → result C) :
  result_bind (result_bind m f) g = result_bind m (λ a, result_bind (f a) g).
Proof. by destruct m. Qed.

(** The trades of the loop are appended to those already made. *)
Lemma match_loop_acc {T : Type} (fuel : nat) (crosses : Z → result bool)
    (mk : Entry → Z → T) :
  ∀ (heap : list Entry) (idx : gmap string Order) (rem : Z) (acc : list T),
    match_loop fuel crosses mk heap idx rem acc =
    '(h, i, r, ts) ←! match_loop fuel crosses mk heap idx rem [];
    Ok (h, i, r, acc ++ ts).
Proof.
  induction fuel as [|fuel IH]; intros heap idx rem acc; cbn [match_loop].
  { simpl. by rewrite app_nil_r. }
  destruct (0 <? rem); [|simpl; by rewrite app_nil_r].
  destruct heap as [|best heap]; [simpl; by rewrite app_nil_r|].
  destruct (crosses (entry_key best)) as [[|]|]; simpl; try done;
    [|by rewrite app_nil_r].
  destruct (quantity (entry_order best) <=? rem); [|done].
  destruct (Heapq.heappop (best :: heap)) as [[x heap1]|]; simpl; [|done].
  destruct (dict_del (order_id (entry_order best)) idx) as [idx1|]; simpl; [|done].
  rewrite (IH _ _ _ (acc ++ _)), (IH _ _ _ [_]), bind_assoc.
  destruct (match_loop fuel crosses mk heap1 idx1 _ []) as [[[[h i] r] ts]|]; simpl;
    [|done].
  by rewrite <-app_assoc.
Qed.

(** One turn of the loop: it stops, or fills the best order completely and
    goes on, or fills it partially and stops. *)
Lemma match_loop_step {T : Type} (fuel : nat) (crosses : Z → result bool)
    (mk : Entry → Z → T) (heap : list Entry) (idx : gmap string Order) (rem : Z)
    (h' : list Entry) (i' : gmap string Order) (r' : Z) (ts : list T) :
  match_loop (S fuel) crosses mk heap idx rem [] = Ok (h', i', r', ts) →
  ((rem ≤ 0 ∨ heap = [] ∨
    ∃ best, head heap = Some best ∧ crosses (entry_key best) = Ok false)
   ∧ h' = heap ∧ i' = idx ∧ r' = rem ∧ ts = [])
  ∨ (∃ best heap1 idx1 ts1,
       0 < rem ∧ head heap = Some best ∧ crosses (entry_key best) = Ok true ∧
       quantity (entry_order best) ≤ rem ∧
       Heapq.heappop heap = Ok (best, heap1) ∧
       dict_del (order_id (entry_order best)) idx = Ok idx1 ∧
       match_loop fuel crosses mk heap1 idx1 (rem - quantity (entry_order best)) []
         = Ok (h', i', r', ts1) ∧
       ts = mk best (quantity (entry_order best)) :: ts1)
  ∨ (∃ best,
       0 < rem ∧ head heap = Some best ∧ crosses (entry_key best) = Ok true ∧
       rem < quantity (entry_order best) ∧
       h' = <[0%nat := (entry_key best, entry_time best,
                        set_quantity (quantity (entry_order best) - rem)
                                     (entry_order best))]> heap ∧
       i' = assign_quantity (entry_order best)
                            (quantity (entry_order best) - rem) idx ∧
       r' = 0 ∧ ts = [mk best rem]).
Proof.
  cbn [match_loop]. intros Hrun.
  destruct (0 <? rem) eqn:Hrem.
  2:{ apply Z.ltb_ge in Hrem. left. simplify_eq. auto 10. }
  apply Z.ltb_lt in Hrem.
  destruct heap as [|best heap]; [left; simplify_eq; auto 10|].
  inv_bind Hrun. destruct r.
  2:{ left. simplify_eq. split; [|done]. right. right. by exists best. }
  destruct (quantity (entry_order best) <=? rem) eqn:Hq.
  - apply Z.leb_le in Hq. right. left.
    inv_bind Hrun. destruct r as [x heap1]. inv_bind Hrun.
    pose proof (heappop_perm _ _ _ E0) as [Hhead _]. simpl in Hhead.
    apply (inj Some) in Hhead. subst x.
    rewrite match_loop_acc in Hrun. inv_bind Hrun.
    destruct r0 as [[[h i] r0] ts1]. simplify_eq/=.
    exists best, heap1, r, ts1. done.
  - apply Z.leb_gt in Hq. right. right. simplify_eq/=. by exists best.
Qed.

(** What is left on the consumed side was there before. *)
Lemma match_loop_reduced {T : Type} (crosses : Z → result bool)
    (mk : Entry → Z → T) (fuel : nat) :
  ∀ (heap : list Entry) (idx : gmap string Order) (rem : Z)
    (h' : list Entry) (i' : gmap string Order) (r' : Z) (ts : list T),
    match_loop fuel crosses mk heap idx rem [] = Ok (h', i', r', ts) →
    ∀ e', e' ∈ h' → ∃ e, e ∈ heap ∧ reduced e' e.
Proof.
  assert (∀ e : Entry, reduced e e) as Hrefl.
  { intros e. split_and!; [done..|]. exists (quantity (entry_order e)).
    by destruct e as [[k t] []]. }
  induction fuel as [|fuel IH]; intros heap idx rem h' i' r' ts Hrun e' He'.
  { simpl in Hrun. simplify_eq. eauto. }
  apply match_loop_step in Hrun
    as [(_ & -> & _)|[(best & heap1 & idx1 & ts1 & _ & _ & _ & _ & Hpop & _ & Hrun & _)
                     |(best & _ & Hhead & _ & _ & -> & _)]].
  - eauto.
  - destruct (IH _ _ _ _ _ _ _ Hrun e' He') as (e & He & Hred).
    exists e. split; [|done].
    apply heappop_perm in Hpop as [_ Hperm]. rewrite Hperm. by right.
  - destruct heap as [|b heap]; simplify_eq/=.
    apply elem_of_cons in He' as [->|He'].
    + exists best. split; [by left|]. split_and!; [done..|]. eauto.
    + exists e'. split; [by right|done].
Qed.

Lemma match_loop_heap {T : Type} (crosses : Z → result bool)
    (mk : Entry → Z → T) (fuel : nat) :
  ∀ (heap : list Entry) (idx : gmap string Order) (rem : Z)
    (h' : list Entry) (i' : gmap string Order) (r' : Z) (ts : list T),
    match_loop fuel crosses mk heap idx rem [] = Ok (h', i', r', ts) →
    is_heap heap → is_heap h'.
Proof.
  induction fuel as [|fuel IH]; intros heap idx rem h' i' r' ts Hrun Hheap.
  { simpl in Hrun. by simplify_eq. }
  apply match_loop_step in Hrun
    as [(_ & -> & _)|[(best & heap1 & idx1 & ts1 & _ & _ & _ & _ & Hpop & _ & Hrun & _)
                     |(best & _ & Hhead & _ & _ & -> & _)]].
  - done.
  - eapply IH; [done|]. by eapply heappop_heap.
  - destruct heap as [|b heap]; simplify_eq/=.
    eapply heap_from_same_keys; [|done].
    constructor; [done|]. by apply Forall_Forall2_diag, Forall_true.
Qed.

(** With fuel for the whole side, the loop ends for a reason of the code:
    nothing left to fill, nothing left to match, or a price that does not
    cross. *)
Lemma match_loop_exit {T : Type} (crosses : Z → result bool)
    (mk : Entry → Z → T) (fuel : nat) :
  ∀ (heap : list Entry) (idx : gmap string Order) (rem : Z)
    (h' : list Entry) (i' : gmap string Order) (r' : Z) (ts : list T),
    match_loop fuel crosses mk heap idx rem [] = Ok (h', i', r', ts) →
    (length heap ≤ fuel)%nat →
    r' ≤ 0 ∨ h' = [] ∨
    ∃ best, head h' = Some best ∧ crosses (entry_key best) = Ok false.
Proof.
  induction fuel as [|fuel IH]; intros heap idx rem h' i' r' ts Hrun Hfuel.
  { simpl in Hrun. simplify_eq. right. left. apply length_zero_iff_nil. lia. }
  apply match_loop_step in Hrun
    as [(Hstop & -> & _ & -> & _)|[(best & heap1 & idx1 & ts1 & _ & _ & _ & _ & Hpop & _ & Hrun & _)
                     |(best & _ & _ & _ & _ & _ & _ & -> & _)]].
  - done.
  - eapply IH; [done|].
    apply heappop_perm in Hpop as [_ Hperm]. apply Permutation_length in Hperm.
    simpl in Hperm. lia.
  - left. lia.
Qed.

(** Conservation inside the loop: what was to fill is what was filled plus
    what remains. *)
Lemma match_loop_conserve {T : Type} (crosses : Z → result bool)
    (mk : Entry → Z → T) (qty : T → Z) (fuel : nat) :
  (∀ e q, qty (mk e q) = q) →
  ∀ (heap : list Entry) (idx : gmap string Order) (rem : Z)
    (h' : list Entry) (i' : gmap string Order) (r' : Z) (ts : list T),
    match_loop fuel crosses mk heap idx rem [] = Ok (h', i', r', ts) →
    rem = foldr Z.add 0 (qty <$> ts) + r' ∧ (0 ≤ rem → 0 ≤ r').
Proof.
  intros Hqty.
  induction fuel as [|fuel IH]; intros heap idx rem h' i' r' ts Hrun.
  { simpl in Hrun. simplify_eq. simpl. lia. }
  apply match_loop_step in Hrun
    as [(_ & _ & _ & -> & ->)|[(best & heap1 & idx1 & ts1 & _ & _ & _ & Hq & _ & _ & Hrun & ->)
                     |(best & Hrem & _ & _ & _ & _ & _ & -> & ->)]].
  - simpl. lia.
  - apply IH in Hrun as [Hsum Hpos]. rewrite fmap_cons. cbn [foldr].
    rewrite Hqty. lia.
  - simpl. rewrite Hqty. lia.
Qed.

(** The matching loop is run with a step of fuel for every tuple of the
    side; more fuel changes nothing. *)
Lemma match_loop_fuel {T : Type} (crosses : Z → result bool)
    (mk : Entry → Z → T) (f1 : nat) :
  ∀ (f2 : nat) (heap : list Entry) (idx : gmap string Order) (rem : Z) (acc : list T),
    (length heap ≤ f1)%nat → (length heap ≤ f2)%nat →
    match_loop f1 crosses mk heap idx rem acc = match_loop f2 crosses mk heap idx rem acc.
Proof.
  assert (∀ f idx rem (acc : list T),
            match_loop f crosses mk [] idx rem acc = Ok ([], idx, rem, acc)) as Hend.
  { intros [|f] idx rem acc; [done|]. cbn [match_loop]. by destruct (0 <? rem). }
  induction f1 as [|f1 IH]; intros f2 heap idx rem acc H1 H2.
  { destruct heap; [|simpl in H1; lia]. by rewrite !Hend. }
  destruct f2 as [|f2].
  { destruct heap; [|simpl in H2; lia]. by rewrite !Hend. }
  cbn [match_loop].
  destruct (0 <? rem); [|done].
  destruct heap as [|best heap]; [done|].
  destruct (crosses (entry_key best)) as [[|]|]; simpl; try done.
  destruct (quantity (entry_order best) <=? rem); [|done].
  destruct (Heapq.heappop (best :: heap)) as [[x heap1]|] eqn:Hpop; simpl; [|done].
  destruct (dict_del (order_id (entry_order best)) idx) as [idx1|]; simpl; [|done].
  apply heappop_perm in Hpop as [_ Hperm]. apply Permutation_length in Hperm.
  simpl in *. apply IH; lia.
Qed.

(** The loop does not depend on the record it builds for a fill. *)
Lemma match_loop_map {T U : Type} (g : T → U) (crosses : Z → result bool)
    (mk : Entry → Z → T) (fuel : nat) :
  ∀ (heap : list Entry) (idx : gmap string Order) (rem : Z),
    match_loop fuel crosses (λ e q, g (mk e q)) heap idx rem [] =
    '(h, i, r, ts) ←! match_loop fuel crosses mk heap idx rem [];
    Ok (h, i, r, g <$> ts).
Proof.
  induction fuel as [|fuel IH]; intros heap idx rem; cbn [match_loop]; [done|].
  destruct (0 <? rem); [|done].
  destruct heap as [|best heap]; [done|].
  destruct (crosses (entry_key best)) as [[|]|]; simpl; try done.
  destruct (quantity (entry_order best) <=? rem); [|done].
  destruct (Heapq.heappop (best :: heap)) as [[x heap1]|]; simpl; [|done].
  destruct (dict_del (order_id (entry_order best)) idx) as [idx1|]; simpl; [|done].
  rewrite (match_loop_acc _ _ _ _ _ _ [g _]), (match_loop_acc _ _ _ _ _ _ [mk _ _]).
  rewrite IH, !bind_assoc.
  by destruct (match_loop fuel crosses mk heap1 idx1 _ []) as [[[[h i] r] ts]|].
Qed.

(** Price-time priority inside the loop: the tuple filled at step [j] is
    ahead of every tuple of the side that was not filled before it. *)
Lemma match_loop_priority (crosses : Z → result bool) (fuel : nat) :
  ∀ (heap : list Entry) (idx : gmap string Order) (rem : Z)
    (h' : list Entry) (i' : gmap string Order) (r' : Z) (fills : list (Entry * Z)),
    match_loop fuel crosses pair heap idx rem [] = Ok (h', i', r', fills) →
    is_heap heap →
    ∀ j c q, fills !! j = Some (c, q) →
      ∀ a, a ∈ heap →
        key_le c a ∨ ∃ i q', (i < j)%nat ∧ fills !! i = Some (a, q').
Proof.
  induction fuel as [|fuel IH]; intros heap idx rem h' i' r' fills Hrun Hheap j c q Hj a Ha.
  { simpl in Hrun. by simplify_eq. }
  apply match_loop_step in Hrun
    as [(_ & _ & _ & _ & ->)|[(best & heap1 & idx1 & ts1 & _ & Hbest & _ & _ & Hpop & _ & Hrun & ->)
                     |(best & _ & Hbest & _ & _ & _ & _ & _ & ->)]].
  - by rewrite lookup_nil in Hj.
  - destruct j as [|j]; simpl in Hj.
    + simplify_eq. left. by eapply is_heap_root_min.
    + pose proof (heappop_perm _ _ _ Hpop) as [_ Hperm].
      rewrite Hperm in Ha. apply elem_of_cons in Ha as [->|Ha].
      * right. exists 0%nat, (quantity (entry_order best)). split; [lia|done].
      * destruct (IH _ _ _ _ _ _ _ Hrun (heappop_heap _ _ _ Hheap Hpop) j c q Hj a Ha)
          as [?|(i & q' & Hi & Hf)]; [by left|].
        right. exists (S i), q'. split; [lia|done].
  - destruct j as [|j]; simpl in Hj; [|by rewrite lookup_nil in Hj].
    simplify_eq. left. by eapply is_heap_root_min.
Qed.

(** The trades of [add_order] are the fills of [matched_against]. *)
Lemma add_order_fills (o : Order) (b b' : OrderBook) (ts : list Trade) :
  order_type o ≠ CANCEL → add_order o b = Ok (b', ts) →
  ∃ h' i' r' fills,
    match_loop (length (opposite_side o b)) (crosses_for o) pair
               (opposite_side o b) (orders_by_id (store_order o b)) (quantity o) []
      = Ok (h', i', r', fills) ∧
    ts = trade_for o <$> fills.
Proof.
  intros Hty Hrun. unfold add_order in Hrun.
  unfold opposite_side, crosses_for, trade_for.
  destruct (order_type o) eqn:Hot; [| |done].
  - unfold _process_market_order in Hrun.
    destruct (side o) eqn:Hside; inv_bind Hrun; destruct r as [[[h idx] rem] ts0];
      simplify_eq; simpl in E.
    + rewrite (match_loop_map (λ f, trade_buying o (entry_key f.1) f.1 f.2) _ pair) in E.
      inv_bind E. destruct r as [[[h1 idx1] rem1] fills]. simplify_eq.
      by exists h, idx, rem, fills.
    + rewrite (match_loop_map (λ f, trade_selling o (entry_key f.1) f.1 f.2) _ pair) in E.
      inv_bind E. destruct r as [[[h1 idx1] rem1] fills]. simplify_eq.
      by exists h, idx, rem, fills.
  - unfold _process_limit_order in Hrun.
    destruct (side o) eqn:Hside; inv_bind Hrun; destruct r as [[[h idx] rem] ts0];
      inv_bind Hrun; destruct r as [h2 idx2]; simplify_eq; simpl in E.
    + rewrite (match_loop_map (λ f, trade_buying o (entry_key f.1) f.1 f.2) _ pair) in E.
      inv_bind E. destruct r as [[[h1 idx1] rem1] fills]. simplify_eq.
      by exists h, idx, rem, fills.
    + rewrite (match_loop_map (λ f, trade_selling o (- entry_key f.1) f.1 f.2) _ pair) in E.
      inv_bind E. destruct r as [[[h1 idx1] rem1] fills]. simplify_eq.
      by exists h, idx, rem, fills.
Qed.

(** ** When the matching loop returns *)

Lemma no_tie_times (h : list Entry) : NoDup (entry_time <$> h) → no_tie h.
Proof.
  unfold no_tie. intros Hnd.
  apply (NoDup_fmap_1 snd). by rewrite <-list_fmap_compose.
Qed.

Lemma submseteq_NoDup {A : Type} (l k : list A) : l ⊆+ k → NoDup k → NoDup l.
Proof.
  intros [k' Hk]%submseteq_Permutation Hnd. rewrite Hk in Hnd.
  by apply NoDup_app in Hnd as [? _].
Qed.

Lemma heappop_total (h : list Entry) :
  no_tie h → h ≠ [] → ∃ x h', Heapq.heappop h = Ok (x, h').
Proof.
  intros Hnd Hne. unfold Heapq.heappop.
  destruct (last h) as [lastelt|] eqn:Hlast.
  2:{ by apply last_None in Hlast. }
  apply last_Some in Hlast as [front ->].
  rewrite length_app, Nat.add_sub, take_app_length.
  destruct front as [|returnitem rest]; [eauto|].
  destruct (siftup_total (lastelt :: rest) 0) as [h' ->]; [|simpl; lia|simpl; eauto].
  eapply no_tie_perm; [|eapply (no_tie_delete _ 0); exact Hnd].
  simpl. by rewrite (comm (++)).
Qed.

Lemma heappush_total (h : list Entry) (e : Entry) :
  no_tie (h ++ [e]) → ∃ h', Heapq.heappush h e = Ok h'.
Proof.
  intros Hnd. unfold Heapq.heappush, Heapq.siftdown.
  apply siftdown_loop_total; [done|]. rewrite length_app. simpl. lia.
Qed.

(** What the loop leaves on the side it consumes keeps its timestamps and
    ids. *)
Lemma match_loop_submseteq {T A : Type} (f : Entry → A) (crosses : Z → result bool)
    (mk : Entry → Z → T) (fuel : nat) :
  (∀ e q, f (entry_key e, entry_time e, set_quantity q (entry_order e)) = f e) →
  ∀ (heap : list Entry) (idx : gmap string Order) (rem : Z)
    (h' : list Entry) (i' : gmap string Order) (r' : Z) (ts : list T),
    match_loop fuel crosses mk heap idx rem [] = Ok (h', i', r', ts) →
    f <$> h' ⊆+ f <$> heap.
Proof.
  intros Hf.
  induction fuel as [|fuel IH]; intros heap idx rem h' i' r' ts Hrun.
  { simpl in Hrun. by simplify_eq. }
  apply match_loop_step in Hrun
    as [(_ & -> & _)|[(best & heap1 & idx1 & ts1 & _ & _ & _ & _ & Hpop & _ & Hrun & _)
                     |(best & _ & Hhead & _ & _ & -> & _)]].
  - done.
  - etrans; [by eapply IH|].
    apply heappop_perm in Hpop as [_ Hperm]. rewrite Hperm. simpl.
    by apply submseteq_cons.
  - destruct heap as [|b heap]; simplify_eq/=. by rewrite Hf.
Qed.

(** The loop changes the index only at ids of the side it consumes, and
    what it leaves there is still filed under an order of that side. *)
Lemma match_loop_index {T : Type} (s : OrderSide) (crosses : Z → result bool)
    (mk : Entry → Z → T) (fuel : nat) :
  ∀ (heap : list Entry) (idx : gmap string Order) (rem : Z)
    (h' : list Entry) (i' : gmap string Order) (r' : Z) (ts : list T),
    match_loop fuel crosses mk heap idx rem [] = Ok (h', i', r', ts) →
    NoDup (entry_id <$> heap) → Forall (indexed s idx) heap →
    Forall (indexed s i') h' ∧
    ∀ k, k ∉ entry_id <$> heap → i' !! k = idx !! k.
Proof.
  induction fuel as [|fuel IH]; intros heap idx rem h' i' r' ts Hrun Hnd Hidx.
  { simpl in Hrun. by simplify_eq. }
  apply match_loop_step in Hrun
    as [(_ & -> & -> & _)|[(best & heap1 & idx1 & ts1 & _ & _ & _ & _ & Hpop & Hdel & Hrun & _)
                     |(best & _ & Hhead & _ & _ & -> & -> & _)]].
  - done.
  - apply heappop_perm in Hpop as [_ Hperm].
    rewrite Hperm in Hnd, Hidx. simpl in Hnd.
    apply NoDup_cons in Hnd as [Hbest Hnd1].
    apply Forall_cons in Hidx as [_ Hidx1].
    unfold dict_del in Hdel.
    destruct (idx !! order_id (entry_order best)) as [ob|]; [|done].
    apply Ok_inj in Hdel. subst idx1.
    destruct (IH _ _ _ _ _ _ _ Hrun Hnd1) as [Hall Hsame].
    { apply Forall_forall. intros e He.
      destruct (proj1 (Forall_forall _ _) Hidx1 e He) as (o & Ho & Hs).
      exists o. split; [|done]. rewrite lookup_delete_ne; [done|].
      intros Heq. apply Hbest. unfold entry_id at 1. rewrite Heq.
      by apply list_elem_of_fmap_2. }
    split; [done|]. intros k Hk. rewrite Hperm in Hk. simpl in Hk.
    apply not_elem_of_cons in Hk as [Hk1 Hk2].
    rewrite (Hsame k Hk2). by apply lookup_delete_ne.
  - destruct heap as [|b heap]; simplify_eq/=.
    apply Forall_cons in Hidx as [(o & Ho & Hs) Hidx1].
    apply NoDup_cons in Hnd as [Hbest Hnd1].
    unfold assign_quantity. unfold entry_id in Ho.
    case_decide as Hsame.
    + split.
      * constructor.
        -- eexists. unfold entry_id; simpl. split; [by apply lookup_insert_eq|].
           simpl. congruence.
        -- apply Forall_forall. intros e He.
           destruct (proj1 (Forall_forall _ _) Hidx1 e He) as (o' & Ho' & Hs').
           exists o'. split; [|done]. rewrite lookup_insert_ne; [done|].
           intros Heq. apply Hbest. unfold entry_id at 1. rewrite Heq.
           by apply list_elem_of_fmap_2.
      * intros k Hk. apply not_elem_of_cons in Hk as [Hk1 _].
        by rewrite lookup_insert_ne.
    + split; [|done]. constructor; [|done].
      exists o. by destruct (entry_order best).
Qed.

(** With distinct timestamps and ids on the side, every id filed, and a
    price test that returns, the loop returns. *)
Lemma match_loop_returns {T : Type} (s : OrderSide) (crosses : Z → result bool)
    (mk : Entry → Z → T) (fuel : nat) :
  (∀ k, ∃ c, crosses k = Ok c) →
  ∀ (heap : list Entry) (idx : gmap string Order) (rem : Z) (acc : list T),
    NoDup (entry_time <$> heap) → NoDup (entry_id <$> heap) →
    Forall (indexed s idx) heap →
    ∃ r, match_loop fuel crosses mk heap idx rem acc = Ok r.
Proof.
  intros Hcross.
  induction fuel as [|fuel IH]; intros heap idx rem acc Htimes Hids Hidx;
    cbn [match_loop]; [eauto|].
  destruct (0 <? rem); [|eauto].
  destruct heap as [|best heap]; [eauto|].
  destruct (Hcross (entry_key best)) as [c ->]. simpl.
  destruct c; [|eauto].
  destruct (quantity (entry_order best) <=? rem); [|eauto].
  destruct (heappop_total (best :: heap)) as (x & heap1 & Hpop);
    [by apply no_tie_times|done|].
  rewrite Hpop. simpl.
  pose proof (heappop_perm _ _ _ Hpop) as [Hhead Hperm]. simpl in Hhead.
  apply (inj Some) in Hhead. subst x.
  apply Forall_cons in Hidx as [(o & Ho & Hs) Hidx1].
  unfold dict_del. unfold entry_id in Ho. rewrite Ho. simpl.
  apply (Permutation_cons_inv) in Hperm.
  simpl in Htimes, Hids.
  apply NoDup_cons in Htimes as [_ Htimes]. apply NoDup_cons in Hids as [Hbest Hids].
  apply IH.
  - by rewrite <-Hperm.
  - by rewrite <-Hperm.
  - rewrite <-Hperm. apply Forall_forall. intros e He.
    destruct (proj1 (Forall_forall _ _) Hidx1 e He) as (o' & Ho' & Hs').
    exists o'. split; [|done]. rewrite lookup_delete_ne; [done|].
    intros Heq. apply Hbest. unfold entry_id at 1. rewrite Heq.
    by apply list_elem_of_fmap_2.
Qed.

(** ** Recording trades leaves the sides and the index alone *)

Lemma record_trades_fields (ts : list Trade) :
  ∀ b : OrderBook,
    buy_orders (record_trades ts b) = buy_orders b ∧
    sell_orders (record_trades ts b) = sell_orders b ∧
    orders_by_id (record_trades ts b) = orders_by_id b ∧
    client_orders (record_trades ts b) = client_orders b ∧
    book_symbol (record_trades ts b) = book_symbol b.
Proof.
  unfold record_trades. induction ts as [|t ts IH]; intros b; simpl; [done|].
  destruct (IH (record_trade b t)) as (-> & -> & -> & -> & ->). done.
Qed.

Lemma record_trades_buys (ts : list Trade) (b : OrderBook) :
  buy_orders (record_trades ts b) = buy_orders b.
Proof. apply record_trades_fields. Qed.

Lemma record_trades_sells (ts : list Trade) (b : OrderBook) :
  sell_orders (record_trades ts b) = sell_orders b.
Proof. apply record_trades_fields. Qed.

Lemma record_trades_index (ts : list Trade) (b : OrderBook) :
  orders_by_id (record_trades ts b) = orders_by_id b.
Proof. apply record_trades_fields. Qed.

Lemma book_ok_record (ts : list Trade) (b : OrderBook) :
  book_ok (record_trades ts b) ↔ book_ok b.
Proof.
  unfold book_ok. by rewrite record_trades_buys, record_trades_sells.
Qed.

(** ** The book stays ordered and uncrossed *)

Lemma reduced_key (e' e : Entry) : reduced e' e → entry_key e' = entry_key e.
Proof. by intros [? _]. Qed.

Lemma key_le_key (a b : Entry) : key_le a b → entry_key a ≤ entry_key b.
Proof. unfold key_le. lia. Qed.

Lemma market_order_ok (o : Order) (b b' : OrderBook) (ts : list Trade) :
  book_ok b → _process_market_order o b = Ok (b', ts) → book_ok b'.
Proof.
  intros (Hbuys & Hsells & Hx) Hrun. unfold _process_market_order in Hrun.
  destruct (side o); inv_bind Hrun; destruct r as [[[h idx] rem] ts0];
    simplify_eq; apply book_ok_record.
  - split_and!; simpl; [done|by eapply match_loop_heap|].
    intros eb es Heb Hes.
    destruct (match_loop_reduced _ _ _ _ _ _ _ _ _ _ E es Hes) as (es0 & Hes0 & Hred).
    rewrite (reduced_key _ _ Hred). by apply Hx.
  - split_and!; simpl; [by eapply match_loop_heap|done|].
    intros eb es Heb Hes.
    destruct (match_loop_reduced _ _ _ _ _ _ _ _ _ _ E eb Heb) as (eb0 & Heb0 & Hred).
    rewrite (reduced_key _ _ Hred). by apply Hx.
Qed.

Lemma limit_order_ok (o : Order) (b b' : OrderBook) (ts : list Trade) :
  book_ok b → _process_limit_order o b = Ok (b', ts) → book_ok b'.
Proof.
  intros (Hbuys & Hsells & Hx) Hrun. unfold _process_limit_order in Hrun.
  destruct (side o); inv_bind Hrun; destruct r as [[[h idx] rem] ts0];
    inv_bind Hrun; destruct r as [h2 idx2]; simplify_eq; apply book_ok_record;
    pose proof (match_loop_heap _ _ _ _ _ _ _ _ _ _ E ltac:(done)) as Hheap;
    pose proof (match_loop_reduced _ _ _ _ _ _ _ _ _ _ E) as Hred;
    pose proof (match_loop_exit _ _ _ _ _ _ _ _ _ _ E ltac:(done)) as Hexit.
  - (* BUY *)
    destruct (0 <? rem) eqn:Hrem.
    + apply Z.ltb_lt in Hrem.
      destruct (price o) as [p|] eqn:Hp; [|by simplify_eq/=].
      simpl in E0. inv_bind E0. apply Ok_inj in E0. simplify_eq.
      pose proof (heappush_perm _ _ _ E1) as Hperm.
      split_and!; simpl; [exact (heappush_heap _ _ _ Hbuys E1)|done|].
      intros eb es Heb Hes. rewrite Hperm in Heb.
      apply elem_of_cons in Heb as [->|Heb].
      * destruct Hexit as [?|[->|(best & Hbest & Hc)]];
          [lia|by apply elem_of_nil in Hes|].
        apply Ok_inj, Z.leb_gt in Hc.
        pose proof (key_le_key _ _ (is_heap_root_min _ _ _ Hheap Hbest Hes)).
        unfold entry_key at 1; simpl. lia.
      * destruct (Hred es Hes) as (es0 & Hes0 & Hr).
        rewrite (reduced_key _ _ Hr). by apply Hx.
    + simplify_eq. split_and!; simpl; [done..|].
      intros eb es Heb Hes. destruct (Hred es Hes) as (es0 & Hes0 & Hr).
      rewrite (reduced_key _ _ Hr). by apply Hx.
  - (* SELL *)
    destruct (0 <? rem) eqn:Hrem.
    + apply Z.ltb_lt in Hrem.
      destruct (price o) as [p|] eqn:Hp; [|by simplify_eq/=].
      simpl in E0. inv_bind E0. apply Ok_inj in E0. simplify_eq.
      pose proof (heappush_perm _ _ _ E1) as Hperm.
      split_and!; simpl; [done|exact (heappush_heap _ _ _ Hsells E1)|].
      intros eb es Heb Hes. rewrite Hperm in Hes.
      apply elem_of_cons in Hes as [->|Hes].
      * destruct Hexit as [?|[->|(best & Hbest & Hc)]];
          [lia|by apply elem_of_nil in Heb|].
        apply Ok_inj, Z.leb_gt in Hc.
        pose proof (key_le_key _ _ (is_heap_root_min _ _ _ Hheap Hbest Heb)).
        unfold entry_key at 2; simpl. lia.
      * destruct (Hred eb Heb) as (eb0 & Heb0 & Hr).
        rewrite (reduced_key _ _ Hr). by apply Hx.
    + simplify_eq. split_and!; simpl; [done..|].
      intros eb es Heb Hes. destruct (Hred eb Heb) as (eb0 & Heb0 & Hr).
      rewrite (reduced_key _ _ Hr). by apply Hx.
Qed.

Lemma remove_order_spec (id : string) (h h' : list Entry) :
  remove_order id h = Ok h' → is_heap h → is_heap h' ∧ h' ⊆ h.
Proof.
  unfold remove_order. intros Hrun Hheap.
  destruct (find_order id h) as [i|]; [|by simplify_eq].
  split; [by eapply heapify_heap|].
  apply heapify_perm in Hrun. rewrite Hrun. apply sublist_subseteq, sublist_delete.
Qed.

Lemma cancel_order_ok (o : Order) (b b' : OrderBook) (ts : list Trade) :
  book_ok b → _cancel_order o b = Ok (b', ts) → book_ok b'.
Proof.
  intros (Hbuys & Hsells & Hx) Hrun. unfold _cancel_order in Hrun.
  destruct (orders_by_id b !! order_id o) as [c|]; [|by simplify_eq].
  inv_bind Hrun. destruct r as [buys sells]. inv_bind Hrun. simplify_eq.
  destruct (side c); inv_bind E; simplify_eq;
    apply remove_order_spec in E1 as [Hheap Hsub]; try done.
  - split_and!; simpl; [done..|]. intros eb es Heb Hes. apply Hx; [|done]. by apply Hsub.
  - split_and!; simpl; [done..|]. intros eb es Heb Hes. apply Hx; [done|]. by apply Hsub.
Qed.

Lemma add_order_ok (o : Order) (b b' : OrderBook) (ts : list Trade) :
  book_ok b → add_order o b = Ok (b', ts) → book_ok b'.
Proof.
  intros Hok Hrun. unfold add_order in Hrun. destruct (order_type o).
  - by eapply market_order_ok; [|done].
  - by eapply limit_order_ok; [|done].
  - by eapply cancel_order_ok.
Qed.

Lemma new_book_ok (sym : string) : book_ok (new_book sym).
Proof.
  split_and!; simpl; [apply is_heap_nil..|]. intros eb es Heb. by apply elem_of_nil in Heb.
Qed.

Lemma run_orders_ok (os : list Order) :
  ∀ b b' : OrderBook, book_ok b → run_orders os b = Ok b' → book_ok b'.
Proof.
  induction os as [|o os IH]; intros b b' Hok Hrun; simpl in Hrun.
  - by simplify_eq.
  - inv_bind Hrun. destruct r as [b1 ts]. eapply IH; [|done]. by eapply add_order_ok.
Qed.

(** ** Tuples carry the price and timestamp of their order *)

Lemma faithful_reduced (s : OrderSide) (e' e : Entry) :
  reduced e' e → faithful_tuple s e → faithful_tuple s e'.
Proof.
  intros (Hk & Ht & q & Ho) (Hs & Hts & Hp). unfold faithful_tuple.
  rewrite Ho, Hk, Ht. by destruct (entry_order e).
Qed.

Lemma match_loop_faithful {T : Type} (s : OrderSide) (crosses : Z → result bool)
    (mk : Entry → Z → T) (fuel : nat) (heap : list Entry) (idx : gmap string Order)
    (rem : Z) (h' : list Entry) (i' : gmap string Order) (r' : Z) (ts : list T) :
  match_loop fuel crosses mk heap idx rem [] = Ok (h', i', r', ts) →
  Forall (faithful_tuple s) heap → Forall (faithful_tuple s) h'.
Proof.
  intros Hrun Hf. apply Forall_forall. intros e' He'.
  destruct (match_loop_reduced _ _ _ _ _ _ _ _ _ _ Hrun e' He') as (e & He & Hred).
  eapply faithful_reduced; [done|]. by eapply Forall_forall in Hf.
Qed.

Lemma remove_order_sub (id : string) (h h' : list Entry) :
  remove_order id h = Ok h' → h' ⊆ h.
Proof.
  unfold remove_order. intros Hrun.
  destruct (find_order id h) as [i|]; [|by simplify_eq].
  apply heapify_perm in Hrun. rewrite Hrun. apply sublist_subseteq, sublist_delete.
Qed.

Lemma Forall_sub {A : Type} (P : A → Prop) (l k : list A) :
  k ⊆ l → Forall P l → Forall P k.
Proof. rewrite !Forall_forall. intros Hsub Hl x Hx. by apply Hl, Hsub. Qed.

Lemma add_order_faithful (o : Order) (b b' : OrderBook) (ts : list Trade) :
  tuples_faithful b → add_order o b = Ok (b', ts) → tuples_faithful b'.
Proof.
  intros [Hb Hs] Hrun. unfold add_order in Hrun. unfold tuples_faithful.
  destruct (order_type o).
  - unfold _process_market_order in Hrun.
    destruct (side o); inv_bind Hrun; destruct r as [[[h idx] rem] ts0];
      simplify_eq; rewrite record_trades_buys, record_trades_sells; simpl.
    + split; [done|]. by eapply (match_loop_faithful SELL).
    + split; [|done]. by eapply (match_loop_faithful BUY).
  - unfold _process_limit_order in Hrun.
    destruct (side o) eqn:Hside; inv_bind Hrun; destruct r as [[[h idx] rem] ts0];
      inv_bind Hrun; destruct r as [h2 idx2]; simplify_eq;
      rewrite record_trades_buys, record_trades_sells; simpl.
    + split; [|by eapply (match_loop_faithful SELL)].
      destruct (0 <? rem); [|by simplify_eq].
      destruct (price o) as [p|] eqn:Hp; [|by simplify_eq/=].
      simpl in E0. inv_bind E0. apply Ok_inj in E0. simplify_eq.
      apply heappush_perm in E1. rewrite E1. constructor; [|done].
      unfold faithful_tuple, entry_key; simpl. by rewrite ?Z.opp_involutive.
    + split; [by eapply (match_loop_faithful BUY)|].
      destruct (0 <? rem); [|by simplify_eq].
      destruct (price o) as [p|] eqn:Hp; [|by simplify_eq/=].
      simpl in E0. inv_bind E0. apply Ok_inj in E0. simplify_eq.
      apply heappush_perm in E1. rewrite E1. constructor; [|done].
      by unfold faithful_tuple.
  - unfold _cancel_order in Hrun.
    destruct (orders_by_id b !! order_id o) as [c|]; [|by simplify_eq].
    inv_bind Hrun. destruct r as [buys sells]. inv_bind Hrun. simplify_eq. simpl.
    destruct (side c); inv_bind E; simplify_eq; apply remove_order_sub in E1.
    + split; [|done]. by eapply Forall_sub.
    + split; [done|]. by eapply Forall_sub.
Qed.

Lemma run_orders_faithful (os : list Order) :
  ∀ b b' : OrderBook, tuples_faithful b → run_orders os b = Ok b' → tuples_faithful b'.
Proof.
  induction os as [|o os IH]; intros b b' Hok Hrun; simpl in Hrun.
  - by simplify_eq.
  - inv_bind Hrun. destruct r as [b1 ts]. eapply IH; [|done].
    by eapply add_order_faithful.
Qed.

Lemma new_book_faithful (sym : string) : tuples_faithful (new_book sym).
Proof. by split; simpl. Qed.

(** ** The id-index *)

Lemma keyed_insert (idx : gmap string Order) (o : Order) :
  keyed idx → keyed (<[order_id o := o]> idx).
Proof.
  intros Hk k o'. rewrite lookup_insert. case_decide; [naive_solver|apply Hk].
Qed.

Lemma keyed_delete (idx : gmap string Order) (k : string) :
  keyed idx → keyed (delete k idx).
Proof.
  intros Hk k' o'. rewrite lookup_delete. case_decide; [done|apply Hk].
Qed.

Lemma keyed_assign (idx : gmap string Order) (o : Order) (q : Z) :
  keyed idx → keyed (assign_quantity o q idx).
Proof.
  intros Hk. unfold assign_quantity. case_decide; [|done].
  by apply (keyed_insert idx (set_quantity q o)).
Qed.

Lemma keyed_del (idx idx' : gmap string Order) (k : string) :
  dict_del k idx = Ok idx' → keyed idx → keyed idx'.
Proof.
  unfold dict_del. destruct (idx !! k); [|done].
  intros ?%Ok_inj ?. subst. by apply keyed_delete.
Qed.

Lemma match_loop_keyed {T : Type} (crosses : Z → result bool)
    (mk : Entry → Z → T) (fuel : nat) :
  ∀ (heap : list Entry) (idx : gmap string Order) (rem : Z)
    (h' : list Entry) (i' : gmap string Order) (r' : Z) (ts : list T),
    match_loop fuel crosses mk heap idx rem [] = Ok (h', i', r', ts) →
    keyed idx → keyed i'.
Proof.
  induction fuel as [|fuel IH]; intros heap idx rem h' i' r' ts Hrun Hk.
  { simpl in Hrun. by simplify_eq. }
  apply match_loop_step in Hrun
    as [(_ & _ & -> & _)|[(best & heap1 & idx1 & ts1 & _ & _ & _ & _ & _ & Hdel & Hrun & _)
                     |(best & _ & _ & _ & _ & _ & -> & _)]].
  - done.
  - eapply IH; [done|]. by eapply keyed_del.
  - by apply keyed_assign.
Qed.

Lemma add_order_keyed (o : Order) (b b' : OrderBook) (ts : list Trade) :
  index_keyed b → add_order o b = Ok (b', ts) → index_keyed b'.
Proof.
  unfold index_keyed. intros Hk Hrun. unfold add_order in Hrun.
  pose proof (keyed_insert _ o Hk) as Hk'.
  destruct (order_type o).
  - unfold _process_market_order in Hrun.
    destruct (side o); inv_bind Hrun; destruct r as [[[h idx] rem] ts0];
      simplify_eq; rewrite record_trades_index; simpl;
      by eapply match_loop_keyed.
  - unfold _process_limit_order in Hrun.
    destruct (side o); inv_bind Hrun; destruct r as [[[h idx] rem] ts0];
      inv_bind Hrun; destruct r as [h2 idx2]; simplify_eq;
      rewrite record_trades_index; simpl;
      pose proof (match_loop_keyed _ _ _ _ _ _ _ _ _ _ E Hk') as Hk2;
      (destruct (0 <? rem); [|by simplify_eq]);
      (destruct (price o) as [p|]; [|by simplify_eq/=]);
      simpl in E0; inv_bind E0; apply Ok_inj in E0; simplify_eq;
      by apply keyed_assign.
  - unfold _cancel_order in Hrun.
    destruct (orders_by_id b !! order_id o) as [c|]; [|by simplify_eq].
    inv_bind Hrun. destruct r as [buys sells]. inv_bind Hrun. simplify_eq. simpl.
    by eapply keyed_del.
Qed.

Lemma run_orders_keyed (os : list Order) :
  ∀ b b' : OrderBook, index_keyed b → run_orders os b = Ok b' → index_keyed b'.
Proof.
  induction os as [|o os IH]; intros b b' Hok Hrun; simpl in Hrun.
  - by simplify_eq.
  - inv_bind Hrun. destruct r as [b1 ts]. eapply IH; [|done].
    by eapply add_order_keyed.
Qed.

Lemma new_book_keyed (sym : string) : index_keyed (new_book sym).
Proof. intros k o. simpl. by rewrite lookup_empty. Qed.

(** ** Orders with distinct ids and timestamps are always served *)

Lemma side_sound_change (s : OrderSide) (seen seen' : list Order)
    (idx idx' : gmap string Order) (h : list Entry) :
  seen ⊆ seen' →
  (∀ e, e ∈ h → idx' !! entry_id e = idx !! entry_id e) →
  side_sound s seen idx h → side_sound s seen' idx' h.
Proof.
  intros Hsub Hsame (Ht & Hi & Hall). split_and!; [done..|].
  apply Forall_forall. intros e He.
  destruct (proj1 (Forall_forall _ _) Hall e He) as (Hte & Hie & o & Ho & Hs).
  split_and!.
  - apply list_elem_of_fmap in Hte as (x & -> & Hx).
    apply list_elem_of_fmap_2. by apply Hsub.
  - apply list_elem_of_fmap in Hie as (x & -> & Hx).
    apply list_elem_of_fmap_2. by apply Hsub.
  - exists o. by rewrite Hsame.
Qed.

Lemma side_sound_ids (s : OrderSide) (seen : list Order) (idx : gmap string Order)
    (h : list Entry) (e : Entry) :
  side_sound s seen idx h → e ∈ h →
  entry_id e ∈ order_id <$> seen ∧ entry_time e ∈ timestamp <$> seen ∧ indexed s idx e.
Proof.
  intros (_ & _ & Hall) He.
  by destruct (proj1 (Forall_forall _ _) Hall e He) as (? & ? & ?).
Qed.

Lemma sides_apart (seen : list Order) (idx : gmap string Order) (s s' : OrderSide)
    (h h' : list Entry) (e : Entry) :
  s ≠ s' → side_sound s seen idx h → side_sound s' seen idx h' →
  e ∈ h' → entry_id e ∉ entry_id <$> h.
Proof.
  intros Hne Hh Hh' He [e0 [Heq He0]]%list_elem_of_fmap.
  destruct (side_sound_ids _ _ _ _ e0 Hh He0) as (_ & _ & o & Ho & Hs).
  destruct (side_sound_ids _ _ _ _ e Hh' He) as (_ & _ & o' & Ho' & Hs').
  rewrite Heq in Ho'. congruence.
Qed.

(** Matching against a sound side returns and leaves both sides sound. *)
Lemma consume_sound {T : Type} (s s' : OrderSide) (seen : list Order)
    (idx : gmap string Order) (heap other : list Entry)
    (crosses : Z → result bool) (mk : Entry → Z → T) (rem : Z) :
  s ≠ s' → keyed idx →
  side_sound s seen idx heap → side_sound s' seen idx other →
  (∀ k, ∃ c, crosses k = Ok c) →
  ∃ h' i' r' ts,
    match_loop (length heap) crosses mk heap idx rem [] = Ok (h', i', r', ts) ∧
    keyed i' ∧ side_sound s seen i' h' ∧ side_sound s' seen i' other ∧
    ∀ k, k ∉ entry_id <$> heap → i' !! k = idx !! k.
Proof.
  intros Hne Hk Hheap Hother Hcross.
  pose proof Hheap as (Ht & Hi & Hall).
  assert (Forall (indexed s idx) heap) as Hidx.
  { eapply Forall_impl; [exact Hall|]. by intros e (_ & _ & ?). }
  destruct (match_loop_returns s crosses mk (length heap) Hcross heap idx rem []
              Ht Hi Hidx) as [[[[h' i'] r'] ts] Hrun].
  exists h', i', r', ts. split; [done|].
  destruct (match_loop_index s _ _ _ _ _ _ _ _ _ _ Hrun Hi Hidx) as [Hidx' Hsame].
  pose proof (match_loop_submseteq entry_time _ _ _ ltac:(done) _ _ _ _ _ _ _ Hrun)
    as Htimes.
  pose proof (match_loop_submseteq entry_id _ _ _ ltac:(done) _ _ _ _ _ _ _ Hrun)
    as Hids.
  split_and!; [by eapply match_loop_keyed| | |done].
  - split_and!; [by eapply submseteq_NoDup..|].
    apply Forall_forall. intros e He.
    split_and!; [| |by apply (proj1 (Forall_forall _ _) Hidx')].
    + assert (entry_time e ∈ entry_time <$> heap) as [e0 [-> He0]]%list_elem_of_fmap.
      { eapply elem_of_submseteq; [|exact Htimes]. by apply list_elem_of_fmap_2. }
      by destruct (side_sound_ids _ _ _ _ e0 Hheap He0) as (_ & ? & _).
    + assert (entry_id e ∈ entry_id <$> heap) as [e0 [-> He0]]%list_elem_of_fmap.
      { eapply elem_of_submseteq; [|exact Hids]. by apply list_elem_of_fmap_2. }
      by destruct (side_sound_ids _ _ _ _ e0 Hheap He0) as (? & _ & _).
  - eapply side_sound_change; [done| |exact Hother].
    intros e He. apply Hsame. by eapply sides_apart.
Qed.

(** The remainder of a new order rests on a sound side. *)
Lemma push_sound (s : OrderSide) (seen : list Order) (o : Order)
    (idx : gmap string Order) (h : list Entry) (k rem : Z) :
  side_sound s seen idx h →
  idx !! order_id o = Some o → side o = s →
  timestamp o ∉ timestamp <$> seen → order_id o ∉ order_id <$> seen →
  ∃ h',
    Heapq.heappush h (k, timestamp o, set_quantity rem o) = Ok h' ∧
    side_sound s (seen ++ [o]) (assign_quantity o rem idx) h'.
Proof.
  intros Hh Ho Hs Hto Hio. pose proof Hh as (Ht & Hi & Hall).
  assert (timestamp o ∉ entry_time <$> h) as Htn.
  { intros [e [Heq He]]%list_elem_of_fmap.
    destruct (side_sound_ids _ _ _ _ e Hh He) as (_ & ? & _). congruence. }
  assert (order_id o ∉ entry_id <$> h) as Hin.
  { intros [e [Heq He]]%list_elem_of_fmap.
    destruct (side_sound_ids _ _ _ _ e Hh He) as (? & _ & _). congruence. }
  destruct (heappush_total h (k, timestamp o, set_quantity rem o)) as [h' Hpush].
  { apply no_tie_times. rewrite fmap_app. simpl.
    apply NoDup_app. split_and!; [done| |apply NoDup_singleton].
    intros t Hth Ht1. apply list_elem_of_singleton in Ht1. by subst. }
  exists h'. split; [done|].
  apply heappush_perm in Hpush.
  unfold assign_quantity. rewrite decide_True by done.
  split_and!.
  - rewrite Hpush. simpl. by apply NoDup_cons.
  - rewrite Hpush. simpl. by apply NoDup_cons.
  - rewrite Hpush. constructor.
    + split_and!.
      * rewrite fmap_app. apply elem_of_app. right. by left.
      * rewrite fmap_app. apply elem_of_app. right. by left.
      * eexists. unfold entry_id. simpl. split; [by apply lookup_insert_eq|done].
    + apply Forall_forall. intros e He.
      destruct (side_sound_ids _ _ _ _ e Hh He) as (Hie & Hte & oe & Hoe & Hse).
      split_and!.
      * rewrite fmap_app. apply elem_of_app. by left.
      * rewrite fmap_app. apply elem_of_app. by left.
      * exists oe. split; [|done]. rewrite lookup_insert_ne; [done|].
        intros Heq. apply Hin. rewrite Heq. by apply list_elem_of_fmap_2.
Qed.

(** A side keeps being sound when an order with a new id is filed or
    reduced in the index. *)
Lemma side_sound_other_id (s : OrderSide) (seen : list Order) (o o' : Order)
    (idx : gmap string Order) (h : list Entry) :
  side_sound s seen idx h → order_id o ∉ order_id <$> seen →
  side_sound s (seen ++ [o]) (<[order_id o := o']> idx) h.
Proof.
  intros Hh Hio. eapply side_sound_change; [|  |exact Hh].
  - intros x Hx. apply elem_of_app. by left.
  - intros e He. apply lookup_insert_ne. intros Heq.
    destruct (side_sound_ids _ _ _ _ e Hh He) as (? & _ & _). congruence.
Qed.

Lemma side_sound_more (s : OrderSide) (seen : list Order) (o : Order)
    (idx : gmap string Order) (h : list Entry) :
  side_sound s seen idx h → side_sound s (seen ++ [o]) idx h.
Proof.
  intros Hh. eapply side_sound_change; [|done|exact Hh].
  intros x Hx. apply elem_of_app. by left.
Qed.

Lemma side_sound_insert (s : OrderSide) (seen : list Order) (o o' : Order)
    (idx : gmap string Order) (h : list Entry) :
  side_sound s seen idx h → order_id o ∉ order_id <$> seen →
  side_sound s seen (<[order_id o := o']> idx) h.
Proof.
  intros Hh Hio. eapply side_sound_change; [done| |exact Hh].
  intros e He. apply lookup_insert_ne. intros Heq.
  destruct (side_sound_ids _ _ _ _ e Hh He) as (? & _ & _). congruence.
Qed.

Lemma sound_record (seen : list Order) (ts : list Trade) (b : OrderBook) :
  sound seen (record_trades ts b) ↔ sound seen b.
Proof.
  unfold sound, index_keyed.
  by rewrite record_trades_buys, record_trades_sells, record_trades_index.
Qed.

(** Matching a new order against the opposite side of a sound book. *)
Lemma match_new_order {T : Type} (s s' : OrderSide) (seen : list Order) (o : Order)
    (idx : gmap string Order) (heap other : list Entry)
    (crosses : Z → result bool) (mk : Entry → Z → T) :
  s ≠ s' → keyed idx →
  side_sound s seen idx heap → side_sound s' seen idx other →
  order_id o ∉ order_id <$> seen →
  (∀ k, ∃ c, crosses k = Ok c) →
  ∃ h' i' r' ts,
    match_loop (length heap) crosses mk heap (<[order_id o := o]> idx) (quantity o) []
      = Ok (h', i', r', ts) ∧
    keyed i' ∧ side_sound s seen i' h' ∧ side_sound s' seen i' other ∧
    i' !! order_id o = Some o.
Proof.
  intros Hne Hk Hheap Hother Hio Hcross.
  destruct (consume_sound s s' seen (<[order_id o := o]> idx) heap other crosses mk
              (quantity o) Hne)
    as (h' & i' & r' & ts & Hrun & Hk' & Hh' & Ho' & Hsame);
    [by apply keyed_insert|by apply side_sound_insert..|done|].
  exists h', i', r', ts. split_and!; try done.
  rewrite Hsame; [by apply lookup_insert_eq|].
  intros [e [Heq He]]%list_elem_of_fmap.
  destruct (side_sound_ids _ _ _ _ e Hheap He) as (? & _ & _). congruence.
Qed.

(** A LIMIT or MARKET order with a new id and a new timestamp is served by
    a sound book, which stays sound. *)
Lemma place_sound (seen : list Order) (o : Order) (b : OrderBook) :
  sound seen b → well_formed o → order_type o ≠ CANCEL →
  timestamp o ∉ timestamp <$> seen → order_id o ∉ order_id <$> seen →
  ∃ b' ts, add_order o b = Ok (b', ts) ∧ sound (seen ++ [o]) b'.
Proof.
  intros (Hk & Hbuys & Hsells) Hwf Hty Hto Hio.
  unfold add_order, well_formed in *. unfold index_keyed in Hk.
  destruct (order_type o); [| |done].
  - (* MARKET *)
    unfold _process_market_order. destruct (side o) eqn:Hside.
    + destruct (match_new_order SELL BUY seen o _ _ _ (λ _, Ok true)
                  (λ best, trade_buying o (entry_key best) best)
                  ltac:(done) Hk Hsells Hbuys Hio ltac:(eauto))
        as (h' & i' & r' & ts & Hrun & Hk' & Hh' & Ho' & _).
      simpl. rewrite Hrun. simpl. eexists _, _. split; [done|].
      apply sound_record. split_and!; simpl; [done|by apply side_sound_more..].
    + destruct (match_new_order BUY SELL seen o _ _ _ (λ _, Ok true)
                  (λ best, trade_selling o (entry_key best) best)
                  ltac:(done) Hk Hbuys Hsells Hio ltac:(eauto))
        as (h' & i' & r' & ts & Hrun & Hk' & Hh' & Ho' & _).
      simpl. rewrite Hrun. simpl. eexists _, _. split; [done|].
      apply sound_record. split_and!; simpl; [done|by apply side_sound_more..].
  - (* LIMIT *)
    destruct Hwf as (_ & p & Hp & _).
    unfold _process_limit_order. rewrite Hp. destruct (side o) eqn:Hside.
    + destruct (match_new_order SELL BUY seen o _ _ _ (λ k, price_le k (Some p))
                  (λ best, trade_buying o (entry_key best) best)
                  ltac:(done) Hk Hsells Hbuys Hio ltac:(simpl; eauto))
        as (h' & i' & r' & ts & Hrun & Hk' & Hh' & Ho' & Hidx).
      unfold store_order; cbn [sell_orders buy_orders orders_by_id].
      rewrite Hrun. cbn [result_bind price_neg]. destruct (0 <? r').
      * destruct (push_sound BUY seen o i' (buy_orders b) (- p) r' Ho' Hidx Hside Hto Hio)
          as (buys' & Hpush & Hb').
        cbn [result_bind price_neg]. rewrite Hpush. cbn [result_bind].
        eexists _, _. split; [done|].
        apply sound_record. split_and!; simpl; [by apply keyed_assign|done|].
        unfold assign_quantity. rewrite decide_True by done.
        by apply side_sound_other_id.
      * cbn [result_bind]. eexists _, _. split; [done|].
        apply sound_record. split_and!; simpl; [done|by apply side_sound_more..].
    + destruct (match_new_order BUY SELL seen o _ _ _ (λ k, price_ge (- k) (Some p))
                  (λ best, trade_selling o (- entry_key best) best)
                  ltac:(done) Hk Hbuys Hsells Hio ltac:(simpl; eauto))
        as (h' & i' & r' & ts & Hrun & Hk' & Hh' & Ho' & Hidx).
      unfold store_order; cbn [sell_orders buy_orders orders_by_id].
      rewrite Hrun. cbn [result_bind price_neg]. destruct (0 <? r').
      * destruct (push_sound SELL seen o i' (sell_orders b) p r' Ho' Hidx Hside Hto Hio)
          as (sells' & Hpush & Hs').
        cbn [result_bind price_neg]. rewrite Hpush. cbn [result_bind].
        eexists _, _. split; [done|].
        apply sound_record. split_and!; simpl; [by apply keyed_assign| |done].
        unfold assign_quantity. rewrite decide_True by done.
        by apply side_sound_other_id.
      * cbn [result_bind]. eexists _, _. split; [done|].
        apply sound_record. split_and!; simpl; [done|by apply side_sound_more..].
Qed.

Lemma find_order_Some (id : string) (h : list Entry) (i : nat) :
  find_order id h = Some i → ∃ e, h !! i = Some e ∧ entry_id e = id.
Proof.
  revert i. induction h as [|e h IH]; intros i Hfind; simpl in Hfind; [done|].
  case_decide as Hid.
  - apply (inj Some) in Hfind. subst i. by exists e.
  - destruct (find_order id h) as [j|]; [|done].
    apply (inj Some) in Hfind. subst i. by apply IH.
Qed.

Lemma find_order_None (id : string) (h : list Entry) :
  find_order id h = None → ∀ e, e ∈ h → entry_id e ≠ id.
Proof.
  induction h as [|e h IH]; intros Hfind e' He'; simpl in Hfind.
  { by apply elem_of_nil in He'. }
  case_decide as Hid; [done|].
  destruct (find_order id h) as [j|]; [done|].
  apply elem_of_cons in He' as [->|He']; [done|]. by apply IH.
Qed.

(** Cancelling on a sound side: the tuple with the id goes, if there is
    one, and no tuple with the id is left. *)
Lemma remove_order_sound (s : OrderSide) (seen : list Order) (idx : gmap string Order)
    (id : string) (h : list Entry) :
  side_sound s seen idx h →
  ∃ h', remove_order id h = Ok h' ∧ side_sound s seen (delete id idx) h'.
Proof.
  intros Hh. pose proof Hh as (Ht & Hi & Hall).
  destruct (remove_order_total id h (no_tie_times _ Ht)) as [h' Hrun].
  exists h'. split; [done|].
  assert (h' ⊆+ h ∧ ∀ e, e ∈ h' → entry_id e ≠ id) as [Hsub Hne].
  { unfold remove_order in Hrun.
    destruct (find_order id h) as [i|] eqn:Hfind.
    - apply heapify_perm in Hrun.
      destruct (find_order_Some _ _ _ Hfind) as (e0 & He0 & Hid).
      pose proof (delete_Permutation _ _ _ He0) as Hperm.
      split.
      + rewrite Hrun. apply sublist_submseteq, sublist_delete.
      + intros e He Heq. rewrite Hrun in He.
        rewrite Hperm in Hi. simpl in Hi. apply NoDup_cons in Hi as [Hnotin _].
        apply Hnotin. rewrite Hid, <-Heq. by apply list_elem_of_fmap_2.
    - apply Ok_inj in Hrun. subst h'. split; [done|]. by apply find_order_None. }
  split_and!.
  - eapply submseteq_NoDup; [|exact Ht]. by apply fmap_submseteq.
  - eapply submseteq_NoDup; [|exact Hi]. by apply fmap_submseteq.
  - apply Forall_forall. intros e He.
    destruct (side_sound_ids _ _ _ _ e Hh (elem_of_submseteq _ _ _ He Hsub))
      as (? & ? & o & Ho & Hs).
    split_and!; [done..|]. exists o. split; [|done].
    rewrite lookup_delete_ne; [done|]. intros Heq. by apply (Hne e He).
Qed.

(** A cancel request is served by a sound book, which stays sound. *)
Lemma cancel_sound (seen : list Order) (c : Order) (b : OrderBook) :
  sound seen b → order_type c = CANCEL →
  ∃ b', add_order c b = Ok (b', []) ∧ sound seen b'.
Proof.
  intros (Hk & Hbuys & Hsells) Hty. unfold add_order. rewrite Hty.
  unfold _cancel_order.
  destruct (orders_by_id b !! order_id c) as [oc|] eqn:Hoc;
    [|exists b; by split_and!].
  assert (∀ s' h, s' ≠ side oc → side_sound s' seen (orders_by_id b) h →
                  side_sound s' seen (delete (order_id c) (orders_by_id b)) h)
    as Hother.
  { intros s' h Hs' Hh. eapply side_sound_change; [done| |exact Hh].
    intros e He. apply lookup_delete_ne. intros Heq.
    destruct (side_sound_ids _ _ _ _ e Hh He) as (_ & _ & o & Ho & Hs).
    rewrite <-Heq, Hoc in Ho. congruence. }
  unfold dict_del. rewrite (Hk _ _ Hoc), Hoc.
  destruct (side oc) eqn:Hside.
  - destruct (remove_order_sound BUY seen _ (order_id c) _ Hbuys) as (h' & -> & Hh').
    simpl. eexists. split; [done|].
    split_and!; simpl; [by apply keyed_delete|done|by apply Hother].
  - destruct (remove_order_sound SELL seen _ (order_id c) _ Hsells) as (h' & -> & Hh').
    simpl. eexists. split; [done|].
    split_and!; simpl; [by apply keyed_delete|by apply Hother|done].
Qed.

Lemma new_book_sound (sym : string) : sound [] (new_book sym).
Proof.
  split_and!; [apply new_book_keyed|..]; simpl;
    (split_and!; [apply NoDup_nil_2..|apply Forall_nil_2]).
Qed.

Lemma run_orders_sound (rest : list Order) :
  ∀ (seen : list Order) (b : OrderBook),
    sound seen b → Forall well_formed rest →
    NoDup (timestamp <$> (seen ++ placed rest)) →
    NoDup (order_id <$> (seen ++ placed rest)) →
    ∃ b', run_orders rest b = Ok b' ∧ sound (seen ++ placed rest) b'.
Proof.
  induction rest as [|o rest IH]; intros seen b Hsound Hwf Hts Hids.
  { exists b. split; [done|]. unfold placed. simpl. by rewrite app_nil_r. }
  apply Forall_cons in Hwf as [Hwo Hwf]. simpl.
  unfold placed in *. rewrite filter_cons in *.
  destruct (decide (order_type o ≠ CANCEL)) as [Hty|Hty].
  - rewrite (cons_middle o seen), !app_assoc in *.
    destruct (place_sound seen o b Hsound Hwo Hty) as (b1 & ts & -> & Hs1).
    + rewrite !fmap_app in Hts. apply NoDup_app in Hts as [Hts _].
      apply NoDup_app in Hts as (_ & Hts & _).
      intros Hin. apply (Hts _ Hin). by left.
    + rewrite !fmap_app in Hids. apply NoDup_app in Hids as [Hids _].
      apply NoDup_app in Hids as (_ & Hids & _).
      intros Hin. apply (Hids _ Hin). by left.
    + simpl. by apply IH.
  - assert (order_type o = CANCEL) as Hc
      by (destruct (order_type o); try done; by destruct Hty).
    destruct (cancel_sound seen o b Hsound Hc) as (b1 & -> & Hs1).
    simpl. by apply IH.
Qed.

(** * The claims of the specification *)

Ltac well_formed_now :=
  unfold well_formed; simpl;
  first [ exact I | lia | split; [lia | eexists; split; [reflexivity|lia]] ].

(** ** C1: the book is never crossed *)

(** C1.  For every finite sequence of well-formed orders applied with
    [add_order] to a new book, whenever both sides are non-empty the best bid
    price is strictly less than the best ask price. *)
Theorem book_never_crossed (sym : string) (orders : list Order) (b : OrderBook)
    (bid ask : Z * Z) :
  Forall well_formed orders →
  run_orders orders (new_book sym) = Ok b →
  get_best_bid b = Some bid →
  get_best_ask b = Some ask →
  bid.1 < ask.1.
Proof.
  intros _ Hrun Hbid Hask.
  destruct (run_orders_ok _ _ _ (new_book_ok sym) Hrun) as (_ & _ & Hx).
  unfold get_best_bid in Hbid. unfold get_best_ask in Hask.
  destruct (buy_orders b) as [|eb buys]; [done|].
  destruct (sell_orders b) as [|es sells]; [done|].
  simplify_eq/=. apply Hx; by left.
Qed.

Lemma book_never_crossed_witness :
  ∃ b, run_orders CrossSample.orders (new_book "AAPL") = Ok b ∧
       get_best_bid b = Some (99, 5) ∧ get_best_ask b = Some (102, 10) ∧
       (99, 5).1 < (102, 10).1.
Proof.
  eexists. split; [vm_compute; reflexivity|].
  split; [reflexivity|]. split; [reflexivity|].
  eapply (book_never_crossed "AAPL" CrossSample.orders).
  - repeat first [apply Forall_nil_2 | apply Forall_cons_2]; well_formed_now.
  - vm_compute; reflexivity.
  - reflexivity.
  - reflexivity.
Defined.

(** ** C2: price-time priority *)

(** C2.  Of two orders resting on the same side at the same price, an
    incoming order on the opposite side is matched against the one with the
    earlier timestamp first: a fill against the later one is preceded by a
    fill against the earlier one.  The fills are those of the matching loop,
    and the trades returned are built from them in order. *)
Theorem price_time_priority (sym : string) (history : list Order) (b : OrderBook)
    (o : Order) (b' : OrderBook) (ts : list Trade) (a c : Entry) :
  run_orders history (new_book sym) = Ok b →
  order_type o ≠ CANCEL →
  add_order o b = Ok (b', ts) →
  a ∈ opposite_side o b → c ∈ opposite_side o b →
  price (entry_order a) = price (entry_order c) →
  timestamp (entry_order a) < timestamp (entry_order c) →
  ∃ fills,
    matched_against o b = Ok fills ∧
    ts = trade_for o <$> fills ∧
    ∀ j q, fills !! j = Some (c, q) →
      ∃ i q', (i < j)%nat ∧ fills !! i = Some (a, q').
Proof.
  intros Hrun Hty Hadd Ha Hc Hprice Htime.
  destruct (run_orders_ok _ _ _ (new_book_ok sym) Hrun) as (Hbuys & Hsells & _).
  destruct (run_orders_faithful _ _ _ (new_book_faithful sym) Hrun) as [Hfb Hfs].
  destruct (add_order_fills _ _ _ _ Hty Hadd) as (h' & i' & r' & fills & Hloop & ->).
  exists fills. split_and!; [|done|].
  { unfold matched_against. rewrite Hloop. by destruct (order_type o). }
  assert (is_heap (opposite_side o b)) as Hheap.
  { unfold opposite_side. by destruct (side o). }
  assert (¬ key_le c a) as Hnle.
  { unfold opposite_side in Ha, Hc. destruct (side o).
    - pose proof (proj1 (Forall_forall _ _) Hfs a Ha) as (_ & Hta & Hpa).
      pose proof (proj1 (Forall_forall _ _) Hfs c Hc) as (_ & Htc & Hpc).
      unfold key_le. rewrite Hpa, Hpc in Hprice. simplify_eq. lia.
    - pose proof (proj1 (Forall_forall _ _) Hfb a Ha) as (_ & Hta & Hpa).
      pose proof (proj1 (Forall_forall _ _) Hfb c Hc) as (_ & Htc & Hpc).
      unfold key_le. rewrite Hpa, Hpc in Hprice. simplify_eq. lia. }
  intros j q Hj.
  by destruct (match_loop_priority _ _ _ _ _ _ _ _ _ Hloop Hheap j c q Hj a Ha).
Qed.

Lemma price_time_priority_witness :
  ∃ b b' ts,
    run_orders PrioritySample.history (new_book "AAPL") = Ok b ∧
    add_order PrioritySample.incoming b = Ok (b', ts) ∧
    ∃ fills,
      matched_against PrioritySample.incoming b = Ok fills ∧
      ts = trade_for PrioritySample.incoming <$> fills ∧
      ∀ j q, fills !! j = Some (PrioritySample.later, q) →
        ∃ i q', (i < j)%nat ∧ fills !! i = Some (PrioritySample.earlier, q').
Proof.
  eexists _, _, _. split; [vm_compute; reflexivity|].
  split; [vm_compute; reflexivity|].
  eapply (price_time_priority "AAPL" PrioritySample.history).
  - vm_compute; reflexivity.
  - discriminate.
  - vm_compute; reflexivity.
  - simpl. apply list_elem_of_here.
  - simpl. apply list_elem_of_further, list_elem_of_here.
  - reflexivity.
  - simpl. lia.
Defined.

(** ** C3: conservation of quantity *)

Lemma store_order_sides (o : Order) (b : OrderBook) :
  buy_orders (store_order o b) = buy_orders b ∧
  sell_orders (store_order o b) = sell_orders b.
Proof. done. Qed.



(** ** C7: a MARKET order never rests *)

(** C7, as stated, fails when the MARKET order reuses the id of an order
    that is resting: with a BUY limit order "X" on the book, a MARKET order
    "X" leaves a resting order whose id is "X". *)
Lemma market_residue_counterexample :
  ∃ b b' ts e,
    run_orders [Sample.limit "X" BUY 10 100 1] (new_book "AAPL") = Ok b ∧
    add_order (Sample.market "X" BUY 5 2) b = Ok (b', ts) ∧
    e ∈ buy_orders b' ++ sell_orders b' ∧
    order_id (entry_order e) = order_id (Sample.market "X" BUY 5 2).
Proof.
  eexists _, _, _, _. split; [vm_compute; reflexivity|].
  split; [vm_compute; reflexivity|].
  split; [apply list_elem_of_here|reflexivity].
Qed.

(** C7, amended.  A MARKET order is never placed on a side: its own side is
    unchanged and the side it is matched against holds only tuples that were
    there before, possibly reduced.  So when no resting order carried the
    order's id before the call, none does after it. *)
Theorem market_order_never_rests (m : Order) (b b' : OrderBook) (ts : list Trade) :
  order_type m = MARKET →
  add_order m b = Ok (b', ts) →
  own_side m b' = own_side m b ∧
  (∀ e', e' ∈ opposite_side m b' → ∃ e, e ∈ opposite_side m b ∧ reduced e' e) ∧
  ((∀ e, e ∈ buy_orders b ++ sell_orders b → order_id (entry_order e) ≠ order_id m) →
   ∀ e, e ∈ buy_orders b' ++ sell_orders b' → order_id (entry_order e) ≠ order_id m).
Proof.
  intros Hty Hrun. unfold add_order in Hrun. rewrite Hty in Hrun.
  assert (own_side m b' = own_side m b ∧
          ∀ e', e' ∈ opposite_side m b' → ∃ e, e ∈ opposite_side m b ∧ reduced e' e)
    as [Hown Hopp].
  { unfold _process_market_order in Hrun. unfold own_side, opposite_side.
    destruct (side m); inv_bind Hrun; destruct r as [[[h idx] rem] ts0];
      simplify_eq; rewrite ?record_trades_buys, ?record_trades_sells; simpl;
      (split; [done|]); by eapply match_loop_reduced. }
  split_and!; [done..|].
  intros Hfresh e He.
  assert (e ∈ own_side m b' ++ opposite_side m b') as He'.
  { unfold own_side, opposite_side. destruct (side m); [done|].
    rewrite elem_of_app in *. tauto. }
  assert (∀ e0, e0 ∈ own_side m b ++ opposite_side m b →
                order_id (entry_order e0) ≠ order_id m) as Hfresh'.
  { intros e0 He0. apply Hfresh. unfold own_side, opposite_side in He0.
    destruct (side m); [done|]. rewrite elem_of_app in *. tauto. }
  apply elem_of_app in He' as [He'|He'].
  - apply Hfresh'. rewrite Hown in He'. apply elem_of_app. by left.
  - destruct (Hopp e He') as (e0 & He0 & _ & _ & q & Ho).
    rewrite Ho. destruct (entry_order e0) eqn:Heo. simpl.
    specialize (Hfresh' e0). rewrite Heo in Hfresh'. simpl in Hfresh'.
    apply Hfresh'. apply elem_of_app. by right.
Qed.

Lemma market_order_never_rests_witness :
  ∃ b b' ts,
    run_orders [Sample.limit "S1" SELL 5 150 1] (new_book "AAPL") = Ok b ∧
    add_order (Sample.market "M1" BUY 20 2) b = Ok (b', ts) ∧
    ∀ e, e ∈ buy_orders b' ++ sell_orders b' →
         order_id (entry_order e) ≠ "M1"%string.
Proof.
  eexists _, _, _. split; [vm_compute; reflexivity|].
  match goal with
  | |- add_order ?m ?b = _ ∧ _ => pose proof (market_order_never_rests m b) as Hthm
  end.
  split; [vm_compute; reflexivity|].
  edestruct Hthm as (_ & _ & Hid); [reflexivity|vm_compute; reflexivity|].
  apply Hid. intros e He.
  simpl in He. apply list_elem_of_singleton in He. by subst e.
Defined.

(** ** C8: cancellation is idempotent *)

(** C8.  After a cancel request for an id has been processed, the id is not
    in the index, and a second cancel request for it returns the empty list
    through the not-found branch and leaves the book as the first one left
    it. *)
Theorem cancel_idempotent (sym : string) (history : list Order) (b : OrderBook)
    (c : Order) (b1 : OrderBook) (ts1 : list Trade) :
  run_orders history (new_book sym) = Ok b →
  order_type c = CANCEL →
  add_order c b = Ok (b1, ts1) →
  orders_by_id b1 !! order_id c = None ∧ add_order c b1 = Ok (b1, []).
Proof.
  intros Hrun Hty Hc.
  pose proof (run_orders_keyed _ _ _ (new_book_keyed sym) Hrun) as Hk.
  unfold add_order in *. rewrite Hty in *. unfold _cancel_order in Hc.
  assert (orders_by_id b1 !! order_id c = None) as Hgone.
  { destruct (orders_by_id b !! order_id c) as [oc|] eqn:Hoc; [|by simplify_eq].
    inv_bind Hc. destruct r as [buys sells]. inv_bind Hc. simplify_eq. simpl.
    unfold dict_del in E0. rewrite (Hk _ _ Hoc), Hoc in E0.
    apply Ok_inj in E0. subst. apply lookup_delete_eq. }
  split; [done|]. unfold _cancel_order. by rewrite Hgone.
Qed.

Lemma cancel_idempotent_witness :
  ∃ b b1 ts1,
    run_orders [Sample.limit "B1" BUY 10 100 1; Sample.limit "B2" BUY 10 99 2]
               (new_book "AAPL") = Ok b ∧
    add_order (Sample.cancel "B1") b = Ok (b1, ts1) ∧
    orders_by_id b1 !! order_id (Sample.cancel "B1") = None ∧
    add_order (Sample.cancel "B1") b1 = Ok (b1, []).
Proof.
  eexists _, _, _. split; [vm_compute; reflexivity|].
  split; [vm_compute; reflexivity|].
  eapply (cancel_idempotent "AAPL"
            [Sample.limit "B1" BUY 10 100 1; Sample.limit "B2" BUY 10 99 2]).
  - vm_compute; reflexivity.
  - reflexivity.
  - vm_compute; reflexivity.
Defined.

(** ** C10: a cancel request leaves the trade history and the totals alone *)



(** ** C4: what best bid and best ask report *)





(** ** C5: the id-index and the resting orders *)

(** C5 fails on the code.  [add_order] files every LIMIT and MARKET order in
    the index before matching, and only resting orders that are filled or
    cancelled are ever deleted from it.  A MARKET order stays in the index
    with nothing resting, and so does a LIMIT order that fills completely. *)
Theorem index_keeps_orders_that_do_not_rest :
  (∃ b,
     add_order (Sample.market "M1" BUY 5 1) (new_book "AAPL") = Ok (b, []) ∧
     buy_orders b = [] ∧ sell_orders b = [] ∧
     orders_by_id b !! "M1"%string = Some (Sample.market "M1" BUY 5 1)) ∧
  (∃ b,
     run_orders [Sample.limit "S1" SELL 50 150 1; Sample.limit "B1" BUY 50 150 2]
                (new_book "AAPL") = Ok b ∧
     buy_orders b = [] ∧ sell_orders b = [] ∧
     orders_by_id b !! "B1"%string = Some (Sample.limit "B1" BUY 50 150 2)).
Proof.
  split; eexists; (split; [vm_compute; reflexivity|]); split_and!;
    try reflexivity; by vm_compute.
Qed.

(** ** C6: [add_order] on well-formed orders *)

(** C6 fails on the code.  A second well-formed LIMIT order at the price and
    timestamp of a resting one makes [heappush] compare the two tuples down
    to the orders, and orders have no [<]: [add_order] raises [TypeError]. *)
Theorem add_order_raises_on_tie :
  ∃ b,
    run_orders [Sample.limit "B1" BUY 10 100 1] (new_book "AAPL") = Ok b ∧
    well_formed (Sample.limit "B1" BUY 10 100 1) ∧
    well_formed (Sample.limit "B2" BUY 10 100 1) ∧
    add_order (Sample.limit "B2" BUY 10 100 1) b = Raise TypeError.
Proof.
  eexists. split; [vm_compute; reflexivity|].
  split; [well_formed_now|]. split; [well_formed_now|]. vm_compute; reflexivity.
Qed.

(** The same failure arises when two resting orders share an id: filling
    both deletes the id from the index twice, and the second [del] raises
    [KeyError]. *)
Lemma add_order_raises_on_reused_id :
  ∃ b,
    run_orders [Sample.limit "S" SELL 5 100 1; Sample.limit "S" SELL 5 101 2]
               (new_book "AAPL") = Ok b ∧
    add_order (Sample.market "M1" BUY 10 3) b = Raise KeyError.
Proof. eexists. split; vm_compute; reflexivity. Qed.

(** Ties and reused ids are the only way to fail: a sequence of well-formed
    requests whose LIMIT and MARKET orders carry pairwise distinct ids and
    pairwise distinct timestamps is served to the end, no call raising. *)
Theorem distinct_orders_are_served (sym : string) (history : list Order) :
  Forall well_formed history →
  NoDup (timestamp <$> placed history) →
  NoDup (order_id <$> placed history) →
  ∃ b, run_orders history (new_book sym) = Ok b.
Proof.
  intros Hwf Hts Hids.
  destruct (run_orders_sound history [] (new_book sym) (new_book_sound sym) Hwf Hts Hids)
    as (b & Hrun & _).
  by exists b.
Qed.

(** ** C9: what the ingress parser rejects *)

(** C9, as stated, fails: the parser returns an order for a LIMIT request
    with quantity zero and for one with a negative price.  Both reach
    [add_order] and change the book: the first is filed in the index, the
    second rests on the sell side at its negative price. *)
Lemma parser_admits_ill_formed_requests :
  (∃ o b,
     handle_frame sample_env ParserSample.zero_quantity (new_book "AAPL")
       = Matched o (Ok (b, [])) ∧
     quantity o = 0 ∧ order_type o = LIMIT ∧
     orders_by_id b !! "Z1"%string = Some o) ∧
  (∃ o b,
     handle_frame sample_env ParserSample.negative_price (new_book "AAPL")
       = Matched o (Ok (b, [])) ∧
     price o = Some (-1) ∧ order_type o = LIMIT ∧
     get_best_ask b = Some (-1, 10)).
Proof.
  split; eexists _, _; (split; [vm_compute; reflexivity|]); split_and!;
    try reflexivity; by vm_compute.
Qed.

Lemma parse_order_accepts (env : Env) (f : Frame) (o : Order) :
  _parse_order env f = Ok o ↔ parser_accepts env f o.
Proof.
  unfold _parse_order, parser_accepts, required. split.
  - intros Hrun.
    destruct (f_client_id f) as [client|]; [|done].
    destruct (f_symbol f) as [sym|]; [|done].
    destruct (f_side f) as [side_v|]; [|done].
    destruct (f_order_type f) as [type_v|]; [|done].
    destruct (f_quantity f) as [quantity_v|]; [|done].
    simpl in Hrun.
    destruct side_v as [| | | |side_s| |]; try done.
    inv_bind Hrun. inv_bind Hrun.
    destruct type_v as [| | | |type_s| |]; try done.
    inv_bind Hrun. inv_bind Hrun. inv_bind Hrun. inv_bind Hrun.
    apply Ok_inj in Hrun. simpl in *. apply Ok_inj in E, E1. subst.
    by exists client, sym, side_s, type_s, quantity_v, r0, r2, r3, r4.
  - intros (client & sym & side_s & type_s & quantity_v & s & ty & q & p
            & -> & -> & -> & -> & -> & Hs & Hty & Hq & Hp & ->).
    simpl. rewrite Hs. simpl. rewrite Hty. simpl. rewrite Hq. simpl.
    by rewrite Hp.
Qed.

(** Whatever their signs, an integer quantity and a numeric price pass the
    checks; a price of zero is read as no price. *)
Lemma parser_accepts_any_sign (env : Env) (oid : option string)
    (client sym side_s type_s : string) (s : OrderSide) (ty : OrderType) (q p : Z) :
  OrderSide_of (str_upper env side_s) = Ok s →
  OrderType_of (str_upper env type_s) = Ok ty →
  parser_accepts env
    (mkFrame oid (Some client) (Some sym) (Some (JStr side_s)) (Some (JStr type_s))
             (Some (JInt q)) (Some (JFloat p)))
    (mkOrder (default (uuid4 env) oid) client sym s ty q
             (if p =? 0 then None else Some p) (time_now env)).
Proof.
  intros Hs Hty. apply parse_order_accepts.
  unfold _parse_order. simpl. rewrite Hs. simpl. rewrite Hty. simpl.
  by destruct (p =? 0).
Qed.

(** C9, amended.  A frame is rejected exactly when it fails one of the
    checks of [parser_accepts] (a required field is missing, side or order
    type is not a recognised name, quantity or price does not convert to a
    number); a rejected frame does not reach [add_order].  Every other frame
    reaches [add_order] as the order read from it.  No check looks at the
    sign of the quantity or of the price: with recognised names, any integer
    quantity and any numeric price are accepted, a zero price as no price. *)
Theorem parser_checks_names_not_ranges (env : Env) (f : Frame) (b : OrderBook) :
  match handle_frame env f b with
  | Rejected _ => ∀ o, ¬ parser_accepts env f o
  | Matched o r => parser_accepts env f o ∧ r = add_order o b
  end ∧
  ∀ (oid : option string) (client sym side_s type_s : string)
    (s : OrderSide) (ty : OrderType) (q p : Z),
    OrderSide_of (str_upper env side_s) = Ok s →
    OrderType_of (str_upper env type_s) = Ok ty →
    parser_accepts env
      (mkFrame oid (Some client) (Some sym) (Some (JStr side_s)) (Some (JStr type_s))
               (Some (JInt q)) (Some (JFloat p)))
      (mkOrder (default (uuid4 env) oid) client sym s ty q
               (if p =? 0 then None else Some p) (time_now env)).
Proof.
  split; [|intros; by apply parser_accepts_any_sign].
  unfold handle_frame.
  destruct (_parse_order env f) as [o|e] eqn:Hparse.
  - split; [by apply parse_order_accepts|done].
  - intros o Ho. apply parse_order_accepts in Ho. congruence.
Qed.

(** A frame without a quantity is rejected. *)
Example parser_rejects_missing_quantity :
  handle_frame sample_env ParserSample.no_quantity (new_book "AAPL")
  = Rejected ValueError.
Proof. reflexivity. Qed.

(** * Further properties of the book *)

(** ** Resting quantities are positive *)

Lemma match_loop_positive {T : Type} (crosses : Z → result bool)
    (mk : Entry → Z → T) (fuel : nat) :
  ∀ (heap : list Entry) (idx : gmap string Order) (rem : Z)
    (h' : list Entry) (i' : gmap string Order) (r' : Z) (ts : list T),
    match_loop fuel crosses mk heap idx rem [] = Ok (h', i', r', ts) →
    Forall (λ e, 0 < quantity (entry_order e)) heap →
    Forall (λ e, 0 < quantity (entry_order e)) h'.
Proof.
  induction fuel as [|fuel IH]; intros heap idx rem h' i' r' ts Hrun Hpos.
  { simpl in Hrun. by simplify_eq. }
  apply match_loop_step in Hrun
    as [(_ & -> & _)|[(best & heap1 & idx1 & ts1 & _ & _ & _ & _ & Hpop & _ & Hrun & _)
                     |(best & _ & Hhead & _ & Hlt & -> & _)]].
  - done.
  - eapply IH; [done|].
    apply heappop_perm in Hpop as [_ Hperm]. rewrite Hperm in Hpos.
    by apply Forall_cons in Hpos as [_ ?].
  - destruct heap as [|b heap]; simplify_eq/=.
    apply Forall_cons in Hpos as [_ Hpos]. constructor; [simpl; lia|done].
Qed.

Lemma add_order_positive (o : Order) (b b' : OrderBook) (ts : list Trade) :
  Forall (λ e, 0 < quantity (entry_order e)) (buy_orders b ++ sell_orders b) →
  add_order o b = Ok (b', ts) →
  Forall (λ e, 0 < quantity (entry_order e)) (buy_orders b' ++ sell_orders b').
Proof.
  rewrite !Forall_app. intros [Hb Hs] Hrun. unfold add_order in Hrun.
  destruct (order_type o).
  - unfold _process_market_order in Hrun.
    destruct (side o); inv_bind Hrun; destruct r as [[[h idx] rem] ts0];
      simplify_eq; rewrite record_trades_buys, record_trades_sells; simpl;
      (split; [try done|try done]); by eapply match_loop_positive.
  - unfold _process_limit_order in Hrun.
    destruct (side o); inv_bind Hrun; destruct r as [[[h idx] rem] ts0];
      inv_bind Hrun; destruct r as [h2 idx2]; simplify_eq;
      rewrite record_trades_buys, record_trades_sells; simpl;
      pose proof (match_loop_positive _ _ _ _ _ _ _ _ _ _ E ltac:(done)) as Hh;
      (split; [try done|try done]);
      (destruct (0 <? rem) eqn:Hrem; [apply Z.ltb_lt in Hrem|by simplify_eq]);
      (destruct (price o) as [p|]; [|by simplify_eq/=]);
      simpl in E0; inv_bind E0; apply Ok_inj in E0; simplify_eq;
      apply heappush_perm in E1; rewrite E1; by constructor.
  - unfold _cancel_order in Hrun.
    destruct (orders_by_id b !! order_id o) as [c|]; [|by simplify_eq].
    inv_bind Hrun. destruct r as [buys sells]. inv_bind Hrun. simplify_eq. simpl.
    destruct (side c); inv_bind E; simplify_eq; apply remove_order_sub in E1;
      (split; [try done|try done]); by eapply Forall_sub.
Qed.

Lemma run_orders_positive (os : list Order) :
  ∀ b0 b1 : OrderBook,
    run_orders os b0 = Ok b1 →
    Forall (λ e, 0 < quantity (entry_order e)) (buy_orders b0 ++ sell_orders b0) →
    Forall (λ e, 0 < quantity (entry_order e)) (buy_orders b1 ++ sell_orders b1).
Proof.
  induction os as [|o os IH]; intros b0 b1 Hr Hp; simpl in Hr; [by simplify_eq|].
  inv_bind Hr. destruct r as [b2 ts]. eapply IH; [done|].
  by eapply add_order_positive.
Qed.

(** X1.  In every book reached from a new one, each resting order has a
    positive remaining quantity: an order rests only with a remainder, and a
    partial fill always leaves some. *)
Theorem resting_quantities_positive (sym : string) (history : list Order)
    (b : OrderBook) (e : Entry) :
  run_orders history (new_book sym) = Ok b →
  e ∈ buy_orders b ++ sell_orders b →
  0 < quantity (entry_order e).
Proof.
  intros Hrun He.
  pose proof (run_orders_positive _ _ _ Hrun (Forall_nil_2 _)) as Hall.
  by apply (proj1 (Forall_forall _ _) Hall).
Qed.

Lemma resting_quantities_positive_witness :
  ∃ b e,
    run_orders [Sample.limit "S1" SELL 100 150 1; Sample.limit "B1" BUY 30 150 2]
               (new_book "AAPL") = Ok b ∧
    e ∈ buy_orders b ++ sell_orders b ∧
    quantity (entry_order e) = 70 ∧ 0 < quantity (entry_order e).
Proof.
  eexists _, _. split; [vm_compute; reflexivity|].
  split; [apply list_elem_of_here|]. split; [reflexivity|].
  eapply (resting_quantities_positive "AAPL"
            [Sample.limit "S1" SELL 100 150 1; Sample.limit "B1" BUY 30 150 2]).
  - vm_compute; reflexivity.
  - apply list_elem_of_here.
Defined.

(** ** The trade history and the totals *)

Lemma record_trades_totals (ts : list Trade) :
  ∀ b : OrderBook,
    trades (record_trades ts b) = trades b ++ ts ∧
    total_volume (record_trades ts b) = total_volume b + traded_quantity ts ∧
    total_trades (record_trades ts b) = total_trades b + Z.of_nat (length ts).
Proof.
  unfold record_trades, traded_quantity.
  induction ts as [|t ts IH]; intros b.
  - cbn [foldl fmap list_fmap foldr length]. rewrite app_nil_r.
    split_and!; [done|lia..].
  - rewrite fmap_cons, length_cons, Nat2Z.inj_succ. cbn [foldl foldr].
    destruct (IH (record_trade b t)) as (-> & -> & ->).
    unfold record_trade; cbn [trades total_volume total_trades].
    rewrite <-app_assoc. split_and!; [done|lia..].
Qed.

(** X2.  A call of [add_order] appends the trades it returns to the trade
    history, in order, and adds their quantities and their number to the
    totals; it never rewrites an earlier trade. *)
Theorem add_order_appends_trades (o : Order) (b b' : OrderBook) (ts : list Trade) :
  add_order o b = Ok (b', ts) →
  trades b' = trades b ++ ts ∧
  total_volume b' = total_volume b + traded_quantity ts ∧
  total_trades b' = total_trades b + Z.of_nat (length ts).
Proof.
  intros Hrun. unfold add_order in Hrun. destruct (order_type o).
  - unfold _process_market_order in Hrun.
    destruct (side o); inv_bind Hrun; destruct r as [[[h idx] rem] ts0];
      simplify_eq;
      match goal with |- context [record_trades ts ?b0] =>
        exact (record_trades_totals ts b0) end.
  - unfold _process_limit_order in Hrun.
    destruct (side o); inv_bind Hrun; destruct r as [[[h idx] rem] ts0];
      inv_bind Hrun; destruct r as [h2 idx2]; simplify_eq;
      match goal with |- context [record_trades ts ?b0] =>
        exact (record_trades_totals ts b0) end.
  - unfold _cancel_order in Hrun.
    destruct (orders_by_id b !! order_id o) as [c|].
    + inv_bind Hrun. destruct r as [buys sells]. inv_bind Hrun. simplify_eq.
      simpl. rewrite app_nil_r. unfold traded_quantity. simpl. split_and!; [done|lia..].
    + simplify_eq. rewrite app_nil_r. unfold traded_quantity. simpl.
      split_and!; [done|lia..].
Qed.

Lemma add_order_appends_trades_witness :
  ∃ b b' ts,
    run_orders [Sample.limit "S1" SELL 10 150 1; Sample.limit "S2" SELL 10 151 2;
                Sample.market "M0" BUY 3 3] (new_book "AAPL") = Ok b ∧
    add_order (Sample.market "M1" BUY 15 4) b = Ok (b', ts) ∧
    length ts = 2%nat ∧
    trades b' = trades b ++ ts ∧
    total_volume b' = total_volume b + traded_quantity ts ∧
    total_trades b' = total_trades b + Z.of_nat (length ts).
Proof.
  eexists _, _, _. split; [vm_compute; reflexivity|].
  split; [vm_compute; reflexivity|]. split; [reflexivity|].
  eapply (add_order_appends_trades (Sample.market "M1" BUY 15 4)).
  vm_compute; reflexivity.
Defined.

(** X3.  In every book reached from a new one, [total_volume] is the sum of
    the quantities of the trades in the history and [total_trades] is their
    number. *)
Theorem totals_account_for_trades (sym : string) (history : list Order)
    (b : OrderBook) :
  run_orders history (new_book sym) = Ok b →
  total_volume b = traded_quantity (trades b) ∧
  total_trades b = Z.of_nat (length (trades b)).
Proof.
  assert (∀ os b0 b1, run_orders os b0 = Ok b1 →
            total_volume b0 = traded_quantity (trades b0) ∧
            total_trades b0 = Z.of_nat (length (trades b0)) →
            total_volume b1 = traded_quantity (trades b1) ∧
            total_trades b1 = Z.of_nat (length (trades b1))) as Hall.
  { induction os as [|o os IH]; intros b0 b1 Hr Hp; simpl in Hr; [by simplify_eq|].
    inv_bind Hr. destruct r as [b2 ts]. eapply IH; [done|].
    destruct (add_order_appends_trades _ _ _ _ E) as (-> & -> & ->).
    destruct Hp as [-> ->]. unfold traded_quantity.
    rewrite fmap_app, foldr_app, length_app.
    split; [|lia].
    generalize (trade_quantity <$> trades b0).
    induction l as [|x l IHl]; simpl; [lia|]. rewrite <-IHl. lia. }
  intros Hrun. by apply (Hall _ _ _ Hrun).
Qed.

Lemma totals_account_for_trades_witness :
  ∃ b,
    run_orders [Sample.limit "S1" SELL 10 150 1; Sample.limit "S2" SELL 10 151 2;
                Sample.market "M1" BUY 15 3] (new_book "AAPL") = Ok b ∧
    total_volume b = 15 ∧
    total_volume b = traded_quantity (trades b) ∧
    total_trades b = Z.of_nat (length (trades b)).
Proof.
  eexists. split; [vm_compute; reflexivity|]. split; [reflexivity|].
  eapply (totals_account_for_trades "AAPL"
            [Sample.limit "S1" SELL 10 150 1; Sample.limit "S2" SELL 10 151 2;
             Sample.market "M1" BUY 15 3]).
  vm_compute; reflexivity.
Defined.

(** * The trades of one call *)

(** ** The fills of the matching loop *)

(** Each fill is taken from a tuple of the side, which passed the price
    test, for no more than the tuple holds. *)
Lemma match_loop_fills (crosses : Z → result bool) (fuel : nat) :
  ∀ (heap : list Entry) (idx : gmap string Order) (rem : Z)
    (h' : list Entry) (i' : gmap string Order) (r' : Z) (fills : list (Entry * Z)),
    match_loop fuel crosses pair heap idx rem [] = Ok (h', i', r', fills) →
    Forall (λ f, f.1 ∈ heap ∧ crosses (entry_key f.1) = Ok true ∧
                 f.2 ≤ quantity (entry_order f.1) ∧
                 (0 < quantity (entry_order f.1) → 0 < f.2)) fills.
Proof.
  induction fuel as [|fuel IH]; intros heap idx rem h' i' r' fills Hrun.
  { simpl in Hrun. simplify_eq. constructor. }
  apply match_loop_step in Hrun
    as [(_ & _ & _ & _ & ->)
       |[(best & heap1 & idx1 & ts1 & Hrem & Hbest & Hc & Hq & Hpop & _ & Hrun & ->)
        |(best & Hrem & Hbest & Hc & Hq & _ & _ & _ & ->)]].
  - constructor.
  - apply heappop_perm in Hpop as [_ Hperm]. constructor.
    + simpl. split_and!; [rewrite Hperm; apply list_elem_of_here|done|lia|done].
    + eapply Forall_impl; [by eapply IH|].
      intros f (Hin & ? & ? & ?). split_and!; try done.
      rewrite Hperm. by apply list_elem_of_further.
  - constructor; [|constructor]. simpl.
    destruct heap as [|x heap]; simplify_eq/=.
    split_and!; [apply list_elem_of_here|done|lia|lia].
Qed.

(** The loop walks the side from its best tuple on: the keys of the fills
    do not decrease. *)
Lemma match_loop_sorted (crosses : Z → result bool) (fuel : nat) :
  ∀ (heap : list Entry) (idx : gmap string Order) (rem : Z)
    (h' : list Entry) (i' : gmap string Order) (r' : Z) (fills : list (Entry * Z)),
    match_loop fuel crosses pair heap idx rem [] = Ok (h', i', r', fills) →
    is_heap heap →
    ∀ i j a c, (i < j)%nat → fills !! i = Some a → fills !! j = Some c →
      entry_key a.1 ≤ entry_key c.1.
Proof.
  induction fuel as [|fuel IH]; intros heap idx rem h' i' r' fills Hrun Hheap i j a c Hij Ha Hc.
  { simpl in Hrun. by simplify_eq. }
  apply match_loop_step in Hrun
    as [(_ & _ & _ & _ & ->)
       |[(best & heap1 & idx1 & ts1 & _ & Hbest & _ & _ & Hpop & _ & Hrun & ->)
        |(best & _ & _ & _ & _ & _ & _ & _ & ->)]].
  - by rewrite lookup_nil in Ha.
  - destruct j as [|j]; [lia|]. simpl in Hc.
    pose proof (heappop_perm _ _ _ Hpop) as [_ Hperm].
    destruct i as [|i]; simpl in Ha.
    + simplify_eq. simpl. apply key_le_key.
      eapply is_heap_root_min; [done..|].
      pose proof (match_loop_fills _ _ _ _ _ _ _ _ _ Hrun) as Hf.
      apply list_elem_of_lookup_2 in Hc.
      apply (proj1 (Forall_forall _ _) Hf) in Hc as [Hc _].
      rewrite Hperm. by apply list_elem_of_further.
    + eapply (IH _ _ _ _ _ _ _ Hrun (heappop_heap _ _ _ Hheap Hpop) i j); [lia|done..].
  - destruct j as [|j]; [lia|]. simpl in Hc. by rewrite lookup_nil in Hc.
Qed.

Lemma side_quantity_perm (h h' : list Entry) :
  h ≡ₚ h' → side_quantity h = side_quantity h'.
Proof.
  unfold side_quantity. induction 1 as [|x l l' _ IH|x y l|l l' l'' _ IH1 _ IH2].
  - done.
  - rewrite !fmap_cons. cbn [foldr]. lia.
  - rewrite !fmap_cons. cbn [foldr]. lia.
  - lia.
Qed.

Lemma side_quantity_cons (e : Entry) (h : list Entry) :
  side_quantity (e :: h) = quantity (entry_order e) + side_quantity h.
Proof. unfold side_quantity. by rewrite fmap_cons. Qed.

(** What the fills take is what the side loses. *)
Lemma match_loop_liquidity (crosses : Z → result bool) (fuel : nat) :
  ∀ (heap : list Entry) (idx : gmap string Order) (rem : Z)
    (h' : list Entry) (i' : gmap string Order) (r' : Z) (fills : list (Entry * Z)),
    match_loop fuel crosses pair heap idx rem [] = Ok (h', i', r', fills) →
    side_quantity heap = side_quantity h' + foldr Z.add 0 (snd <$> fills).
Proof.
  induction fuel as [|fuel IH]; intros heap idx rem h' i' r' fills Hrun.
  { simpl in Hrun. simplify_eq. cbn [fmap list_fmap foldr]. lia. }
  apply match_loop_step in Hrun
    as [(_ & -> & _ & _ & ->)
       |[(best & heap1 & idx1 & ts1 & _ & _ & _ & _ & Hpop & _ & Hrun & ->)
        |(best & _ & Hbest & _ & _ & -> & _ & _ & ->)]].
  - cbn [fmap list_fmap foldr]. lia.
  - apply heappop_perm in Hpop as [_ Hperm].
    rewrite (side_quantity_perm _ _ Hperm), side_quantity_cons, fmap_cons.
    cbn [foldr snd]. rewrite (IH _ _ _ _ _ _ _ Hrun). lia.
  - destruct heap as [|x heap]; simplify_eq/=.
    rewrite !side_quantity_cons. simpl. lia.
Qed.

(** ** From the loop to [add_order] *)

Lemma cancel_no_trades (c : Order) (b b' : OrderBook) (ts : list Trade) :
  order_type c = CANCEL → add_order c b = Ok (b', ts) → ts = [].
Proof.
  intros Hty Hrun. unfold add_order in Hrun. rewrite Hty in Hrun.
  unfold _cancel_order in Hrun.
  destruct (orders_by_id b !! order_id c) as [c0|]; [|by simplify_eq].
  inv_bind Hrun. destruct r as [buys sells]. inv_bind Hrun. by simplify_eq.
Qed.

(** The trades of [add_order] are the fills of the loop on the opposite
    side, and the loop leaves that side as the call does. *)
Lemma add_order_loop (o : Order) (b b' : OrderBook) (ts : list Trade) :
  order_type o ≠ CANCEL → add_order o b = Ok (b', ts) →
  ∃ i' r' fills,
    match_loop (length (opposite_side o b)) (crosses_for o) pair
               (opposite_side o b) (orders_by_id (store_order o b)) (quantity o) []
      = Ok (opposite_side o b', i', r', fills) ∧
    ts = trade_for o <$> fills.
Proof.
  intros Hty Hrun. unfold add_order in Hrun.
  unfold opposite_side, crosses_for, trade_for.
  destruct (order_type o) eqn:Hot; [| |done].
  - unfold _process_market_order in Hrun.
    destruct (side o) eqn:Hside; inv_bind Hrun; destruct r as [[[h idx] rem] ts0];
      simplify_eq; simpl in E.
    + rewrite (match_loop_map (λ f, trade_buying o (entry_key f.1) f.1 f.2) _ pair) in E.
      inv_bind E. destruct r as [[[h1 idx1] rem1] fills]. simplify_eq.
      rewrite record_trades_sells. by exists idx, rem, fills.
    + rewrite (match_loop_map (λ f, trade_selling o (entry_key f.1) f.1 f.2) _ pair) in E.
      inv_bind E. destruct r as [[[h1 idx1] rem1] fills]. simplify_eq.
      rewrite record_trades_buys. by exists idx, rem, fills.
  - unfold _process_limit_order in Hrun.
    destruct (side o) eqn:Hside; inv_bind Hrun; destruct r as [[[h idx] rem] ts0];
      inv_bind Hrun; destruct r as [h2 idx2]; simplify_eq; simpl in E.
    + rewrite (match_loop_map (λ f, trade_buying o (entry_key f.1) f.1 f.2) _ pair) in E.
      inv_bind E. destruct r as [[[h1 idx1] rem1] fills]. simplify_eq.
      rewrite record_trades_sells. by exists idx, rem, fills.
    + rewrite (match_loop_map (λ f, trade_selling o (- entry_key f.1) f.1 f.2) _ pair) in E.
      inv_bind E. destruct r as [[[h1 idx1] rem1] fills]. simplify_eq.
      rewrite record_trades_buys. by exists idx, rem, fills.
Qed.

Lemma traded_quantity_fills (o : Order) (fills : list (Entry * Z)) :
  traded_quantity (trade_for o <$> fills) = foldr Z.add 0 (snd <$> fills).
Proof.
  unfold traded_quantity. induction fills as [|f fills IH]; [done|].
  rewrite !fmap_cons. cbn [foldr]. rewrite IH. f_equal.
  unfold trade_for. by destruct (side o), (order_type o).
Qed.

Lemma opposite_side_elem (o : Order) (b : OrderBook) (e : Entry) :
  e ∈ opposite_side o b → e ∈ buy_orders b ++ sell_orders b.
Proof.
  unfold opposite_side. rewrite elem_of_app. destruct (side o); auto.
Qed.

Lemma opposite_side_faithful (o : Order) (b : OrderBook) (e : Entry) :
  tuples_faithful b → e ∈ opposite_side o b →
  faithful_tuple (match side o with BUY => SELL | SELL => BUY end) e.
Proof.
  intros [Hb Hs] He. unfold opposite_side in He.
  destruct (side o);
    [exact (proj1 (Forall_forall _ _) Hs e He)|exact (proj1 (Forall_forall _ _) Hb e He)].
Qed.

(** ** The anatomy of a trade *)

(** X4.  Every trade returned by [add_order] on a book reached from a new one
    names the incoming order on the incoming order's side and carries its
    symbol; on the other side it names an order that was resting on the
    opposite side, an order of the opposite direction; and its quantity is
    positive and no more than that order held. *)
Theorem trade_anatomy (sym : string) (history : list Order) (b : OrderBook)
    (o : Order) (b' : OrderBook) (ts : list Trade) (t : Trade) :
  run_orders history (new_book sym) = Ok b →
  add_order o b = Ok (b', ts) →
  t ∈ ts →
  aggressor_id o t = order_id o ∧
  trade_symbol t = symbol o ∧
  ∃ e, e ∈ opposite_side o b ∧
       passive_id o t = order_id (entry_order e) ∧
       side (entry_order e) ≠ side o ∧
       0 < trade_quantity t ≤ quantity (entry_order e).
Proof.
  intros Hhist Hrun Ht.
  destruct (decide (order_type o = CANCEL)) as [Hc|Hty].
  { rewrite (cancel_no_trades _ _ _ _ Hc Hrun) in Ht. by apply elem_of_nil in Ht. }
  destruct (add_order_loop _ _ _ _ Hty Hrun) as (i' & r' & fills & Hloop & ->).
  apply list_elem_of_fmap in Ht as ([e q] & -> & Hf).
  pose proof (match_loop_fills _ _ _ _ _ _ _ _ _ Hloop) as Hfills.
  apply (proj1 (Forall_forall _ _) Hfills) in Hf as (He & _ & Hle & Hpos). simpl in *.
  pose proof (run_orders_positive _ _ _ Hhist (Forall_nil_2 _)) as Hall.
  pose proof (proj1 (Forall_forall _ _) Hall e (opposite_side_elem _ _ _ He)) as Hq.
  simpl in Hq. specialize (Hpos Hq).
  pose proof (opposite_side_faithful o b e
                (run_orders_faithful _ _ _ (new_book_faithful sym) Hhist) He)
    as (Hside & _ & _).
  unfold aggressor_id, passive_id, trade_for.
  split_and!.
  - by destruct (side o), (order_type o).
  - by destruct (side o), (order_type o).
  - exists e. split_and!; [done| | | |].
    + by destruct (side o), (order_type o).
    + rewrite Hside. by destruct (side o).
    + destruct (side o), (order_type o); simpl; lia.
    + destruct (side o), (order_type o); simpl; lia.
Qed.

Lemma trade_anatomy_witness :
  ∃ b b' ts t,
    run_orders [Sample.limit "S1" SELL 10 150 1; Sample.limit "S2" SELL 10 151 2]
               (new_book "AAPL") = Ok b ∧
    add_order (Sample.market "M1" BUY 15 3) b = Ok (b', ts) ∧
    ts !! 1%nat = Some t ∧
    buy_order_id t = "M1"%string ∧ sell_order_id t = "S2"%string ∧
    trade_quantity t = 5 ∧
    aggressor_id (Sample.market "M1" BUY 15 3) t = "M1"%string ∧
    trade_symbol t = "AAPL"%string ∧
    ∃ e, e ∈ opposite_side (Sample.market "M1" BUY 15 3) b ∧
         passive_id (Sample.market "M1" BUY 15 3) t = order_id (entry_order e) ∧
         side (entry_order e) ≠ BUY ∧
         0 < trade_quantity t ≤ quantity (entry_order e).
Proof.
  eexists _, _, _, _. split; [vm_compute; reflexivity|].
  split; [vm_compute; reflexivity|]. split; [reflexivity|].
  split; [reflexivity|]. split; [reflexivity|]. split; [reflexivity|].
  eapply (trade_anatomy "AAPL"
            [Sample.limit "S1" SELL 10 150 1; Sample.limit "S2" SELL 10 151 2]
            _ (Sample.market "M1" BUY 15 3)).
  - vm_compute; reflexivity.
  - vm_compute; reflexivity.
  - apply list_elem_of_further, list_elem_of_here.
Defined.



(** X6.  A LIMIT order never trades through its limit: on any book, each
    trade of a LIMIT BUY is priced at or below the order's price, and each
    trade of a LIMIT SELL at or above it. *)
Theorem limit_price_respected (o : Order) (p : Z) (b b' : OrderBook)
    (ts : list Trade) (t : Trade) :
  order_type o = LIMIT →
  price o = Some p →
  add_order o b = Ok (b', ts) →
  t ∈ ts →
  match side o with
  | BUY => trade_price t ≤ p
  | SELL => p ≤ trade_price t
  end.
Proof.
  intros Hty Hp Hrun Ht.
  destruct (add_order_loop o b b' ts) as (i' & r' & fills & Hloop & ->);
    [by rewrite Hty|done|].
  apply list_elem_of_fmap in Ht as ([e q] & -> & Hf).
  pose proof (match_loop_fills _ _ _ _ _ _ _ _ _ Hloop) as Hfills.
  apply (proj1 (Forall_forall _ _) Hfills) in Hf as (_ & Hc & _). simpl in Hc.
  unfold crosses_for, trade_for in *. rewrite Hty, Hp in *.
  destruct (side o); simpl in *; simplify_eq.
  - match goal with H : (_ <=? _) = true |- _ => apply Z.leb_le in H end. lia.
  - match goal with H : (_ <=? _) = true |- _ => apply Z.leb_le in H end. lia.
Qed.

Lemma limit_price_respected_witness :
  ∃ b b' ts t,
    run_orders [Sample.limit "S1" SELL 10 150 1; Sample.limit "S2" SELL 10 153 2]
               (new_book "AAPL") = Ok b ∧
    add_order (Sample.limit "B1" BUY 15 152 3) b = Ok (b', ts) ∧
    ts = [t] ∧ trade_price t = 150 ∧ trade_price t ≤ 152.
Proof.
  eexists _, _, _, _. split; [vm_compute; reflexivity|].
  match goal with
  | |- add_order ?o ?b = _ ∧ _ => pose proof (limit_price_respected o 152 b) as Hthm
  end.
  split; [vm_compute; reflexivity|]. split; [reflexivity|]. split; [reflexivity|].
  eapply Hthm.
  - reflexivity.
  - reflexivity.
  - vm_compute; reflexivity.
  - apply list_elem_of_here.
Defined.

(** X7.  An incoming order takes the best price first: on a book reached
    from a new one, the prices of the trades of one call do not decrease
    along the list for a BUY order and do not increase for a LIMIT SELL
    order.  (For a MARKET SELL order the prices reported are the negated
    bids, so they do not decrease either.) *)
Theorem fills_walk_the_book (sym : string) (history : list Order) (b : OrderBook)
    (o : Order) (b' : OrderBook) (ts : list Trade) (i j : nat) (ti tj : Trade) :
  run_orders history (new_book sym) = Ok b →
  add_order o b = Ok (b', ts) →
  (i < j)%nat → ts !! i = Some ti → ts !! j = Some tj →
  match side o, order_type o with
  | SELL, LIMIT => trade_price tj ≤ trade_price ti
  | _, _ => trade_price ti ≤ trade_price tj
  end.
Proof.
  intros Hhist Hrun Hij Hi Hj.
  destruct (decide (order_type o = CANCEL)) as [Hc|Hty].
  { rewrite (cancel_no_trades _ _ _ _ Hc Hrun) in Hi. by rewrite lookup_nil in Hi. }
  destruct (add_order_loop _ _ _ _ Hty Hrun) as (i' & r' & fills & Hloop & ->).
  rewrite list_lookup_fmap in Hi, Hj.
  destruct (fills !! i) as [fi|] eqn:Hfi; [|done].
  destruct (fills !! j) as [fj|] eqn:Hfj; [|done].
  simpl in Hi, Hj. simplify_eq.
  assert (is_heap (opposite_side o b)) as Hheap.
  { destruct (run_orders_ok _ _ _ (new_book_ok sym) Hhist) as (Hb & Hs & _).
    unfold opposite_side. by destruct (side o). }
  pose proof (match_loop_sorted _ _ _ _ _ _ _ _ _ Hloop Hheap i j fi fj Hij Hfi Hfj).
  unfold trade_for. destruct (side o), (order_type o); simpl; try done; lia.
Qed.

Lemma fills_walk_the_book_witness :
  ∃ b b' ts ti tj,
    run_orders [Sample.limit "S2" SELL 10 151 1; Sample.limit "S1" SELL 10 150 2]
               (new_book "AAPL") = Ok b ∧
    add_order (Sample.market "M1" BUY 15 3) b = Ok (b', ts) ∧
    ts !! 0%nat = Some ti ∧ ts !! 1%nat = Some tj ∧
    trade_price ti = 150 ∧ trade_price tj = 151 ∧
    trade_price ti ≤ trade_price tj.
Proof.
  eexists _, _, _, _, _. split; [vm_compute; reflexivity|].
  split; [vm_compute; reflexivity|]. split; [reflexivity|]. split; [reflexivity|].
  split; [reflexivity|]. split; [reflexivity|].
  eapply (fills_walk_the_book "AAPL"
            [Sample.limit "S2" SELL 10 151 1; Sample.limit "S1" SELL 10 150 2]
            _ (Sample.market "M1" BUY 15 3) _ _ 0 1).
  - vm_compute; reflexivity.
  - vm_compute; reflexivity.
  - lia.
  - reflexivity.
  - reflexivity.
Defined.

(** ** Liquidity *)

(** X8.  What a call trades is what the opposite side loses: after a LIMIT
    or MARKET order, the quantity resting on the side the order was matched
    against is the quantity that rested there before less the quantities of
    the trades returned. *)
Theorem opposite_side_gives_what_is_traded (o : Order) (b b' : OrderBook)
    (ts : list Trade) :
  order_type o ≠ CANCEL →
  add_order o b = Ok (b', ts) →
  side_quantity (opposite_side o b') =
  side_quantity (opposite_side o b) - traded_quantity ts.
Proof.
  intros Hty Hrun.
  destruct (add_order_loop _ _ _ _ Hty Hrun) as (i' & r' & fills & Hloop & ->).
  rewrite traded_quantity_fills, (match_loop_liquidity _ _ _ _ _ _ _ _ _ Hloop). lia.
Qed.

Lemma opposite_side_gives_what_is_traded_witness :
  ∃ b b' ts,
    run_orders [Sample.limit "S1" SELL 10 150 1; Sample.limit "S2" SELL 10 151 2]
               (new_book "AAPL") = Ok b ∧
    add_order (Sample.limit "B1" BUY 15 151 3) b = Ok (b', ts) ∧
    side_quantity (sell_orders b) = 20 ∧ traded_quantity ts = 15 ∧
    side_quantity (opposite_side (Sample.limit "B1" BUY 15 151 3) b') =
    side_quantity (opposite_side (Sample.limit "B1" BUY 15 151 3) b) - traded_quantity ts.
Proof.
  eexists _, _, _. split; [vm_compute; reflexivity|].
  split; [vm_compute; reflexivity|]. split; [reflexivity|]. split; [reflexivity|].
  eapply (opposite_side_gives_what_is_traded (Sample.limit "B1" BUY 15 151 3)).
  - discriminate.
  - vm_compute; reflexivity.
Defined.

Lemma side_quantity_nonneg (h : list Entry) :
  Forall (λ e, 0 < quantity (entry_order e)) h → 0 ≤ side_quantity h.
Proof.
  induction 1 as [|e h He _ IH]; [done|]. rewrite side_quantity_cons. lia.
Qed.

(** X9.  A MARKET order fills as much as the opposite side holds: on a book
    reached from a new one, the quantity it trades is the smaller of its own
    quantity and the quantity resting on the opposite side. *)
Theorem market_order_fills_what_it_can (sym : string) (history : list Order)
    (b : OrderBook) (o : Order) (b' : OrderBook) (ts : list Trade) :
  run_orders history (new_book sym) = Ok b →
  order_type o = MARKET →
  0 ≤ quantity o →
  add_order o b = Ok (b', ts) →
  traded_quantity ts = Z.min (quantity o) (side_quantity (opposite_side o b)).
Proof.
  intros Hhist Hty Hq Hrun.
  destruct (add_order_loop o b b' ts) as (i' & r' & fills & Hloop & ->);
    [by rewrite Hty|done|].
  rewrite traded_quantity_fills.
  pose proof (match_loop_liquidity _ _ _ _ _ _ _ _ _ Hloop) as Hliq.
  pose proof (match_loop_conserve _ pair snd _ (λ _ _, eq_refl) _ _ _ _ _ _ _ Hloop)
    as [Hsum Hrest].
  pose proof (match_loop_exit _ _ _ _ _ _ _ _ _ _ Hloop (le_n _)) as Hexit.
  pose proof (run_orders_positive _ _ _ Hhist (Forall_nil_2 _)) as Hall.
  assert (Forall (λ e, 0 < quantity (entry_order e)) (opposite_side o b)) as Hpos.
  { apply Forall_forall. intros e He.
    exact (proj1 (Forall_forall _ _) Hall e (opposite_side_elem _ _ _ He)). }
  pose proof (side_quantity_nonneg _
                (match_loop_positive _ _ _ _ _ _ _ _ _ _ Hloop Hpos)) as Hleft.
  destruct Hexit as [Hr|[Hnil|(best & _ & Hc)]].
  - lia.
  - rewrite Hnil in *. unfold side_quantity in Hliq at 2. simpl in Hliq. lia.
  - unfold crosses_for in Hc. rewrite Hty in Hc. by destruct (side o).
Qed.

Lemma market_order_fills_what_it_can_witness :
  ∃ b b' ts,
    run_orders [Sample.limit "S1" SELL 5 150 1; Sample.limit "S2" SELL 7 151 2]
               (new_book "AAPL") = Ok b ∧
    add_order (Sample.market "M1" BUY 20 3) b = Ok (b', ts) ∧
    traded_quantity ts = 12 ∧
    traded_quantity ts =
    Z.min (quantity (Sample.market "M1" BUY 20 3))
          (side_quantity (opposite_side (Sample.market "M1" BUY 20 3) b)).
Proof.
  eexists _, _, _. split; [vm_compute; reflexivity|].
  split; [vm_compute; reflexivity|]. split; [reflexivity|].
  eapply (market_order_fills_what_it_can "AAPL"
            [Sample.limit "S1" SELL 5 150 1; Sample.limit "S2" SELL 7 151 2]
            _ (Sample.market "M1" BUY 20 3)).
  - vm_compute; reflexivity.
  - reflexivity.
  - vm_compute; discriminate.
  - vm_compute; reflexivity.
Defined.

(** ** Orders that cannot trade *)

(** X10.  An order for a quantity of zero or less is accepted and does
    nothing but be stored: [add_order] returns no trade, both sides are as
    they were, and the order stays in the index and in its client's list. *)
Theorem non_positive_quantity_is_only_stored (o : Order) (b : OrderBook) :
  order_type o ≠ CANCEL →
  quantity o ≤ 0 →
  add_order o b = Ok (store_order o b, []).
Proof.
  intros Hty Hq. unfold add_order.
  assert (∀ {T} fuel crosses (mk : Entry → Z → T) heap idx,
            match_loop fuel crosses mk heap idx (quantity o) [] =
            Ok (heap, idx, quantity o, [])) as Hloop.
  { intros T [|fuel] crosses mk heap idx; cbn [match_loop]; [done|].
    by destruct (Z.ltb_spec 0 (quantity o)); [lia|]. }
  destruct (order_type o); [| |done].
  - unfold _process_market_order. destruct (side o); by rewrite Hloop.
  - unfold _process_limit_order.
    destruct (side o); rewrite Hloop; cbn [result_bind];
      by destruct (Z.ltb_spec 0 (quantity o)); [lia|].
Qed.

Lemma non_positive_quantity_is_only_stored_witness :
  add_order (Sample.limit "Z1" BUY 0 150 2)
            (store_order (Sample.limit "S1" SELL 10 150 1) (new_book "AAPL"))
  = Ok (store_order (Sample.limit "Z1" BUY 0 150 2)
          (store_order (Sample.limit "S1" SELL 10 150 1) (new_book "AAPL")), []).
Proof.
  apply (non_positive_quantity_is_only_stored (Sample.limit "Z1" BUY 0 150 2)).
  - discriminate.
  - vm_compute; discriminate.
Defined.

(** * Cancellation and the client lists *)

(** ** What a cancel request removes *)

Lemma delete_lookup_elem (i : nat) (x : Entry) (h : list Entry) :
  h !! i = Some x → NoDup (entry_id <$> h) →
  ∀ e, e ∈ delete i h ↔ e ∈ h ∧ entry_id e ≠ entry_id x.
Proof.
  intros Hi Hnd e.
  pose proof (take_drop_middle h i x Hi) as Hsplit.
  rewrite delete_take_drop.
  rewrite <-Hsplit in Hnd. rewrite fmap_app, fmap_cons in Hnd.
  apply NoDup_app in Hnd as (_ & Hfront & Hback).
  apply NoDup_cons in Hback as [Hback _].
  assert (e ∈ h ↔ e ∈ take i h ∨ e = x ∨ e ∈ drop (S i) h) as ->.
  { rewrite <-Hsplit at 1. by rewrite elem_of_app, elem_of_cons. }
  rewrite elem_of_app. split.
  - intros [He|He].
    + split; [by left|]. intros Heq.
      apply (Hfront (entry_id e)); [by apply list_elem_of_fmap_2|].
      rewrite Heq. apply list_elem_of_here.
    + split; [by right; right|]. intros Heq.
      apply Hback. rewrite <-Heq. by apply list_elem_of_fmap_2.
  - intros [[He|[->|He]] Hne]; [by left|done|by right].
Qed.

(** Under distinct ids, [remove_order] removes the tuple of the id and no
    other. *)
Lemma remove_order_exact (id : string) (h h' : list Entry) :
  NoDup (entry_id <$> h) → remove_order id h = Ok h' →
  ∀ e, e ∈ h' ↔ e ∈ h ∧ entry_id e ≠ id.
Proof.
  intros Hnd Hrun e. unfold remove_order in Hrun.
  destruct (find_order id h) as [i|] eqn:Hfind.
  - apply find_order_Some in Hfind as (x & Hx & <-).
    rewrite (heapify_perm _ _ Hrun). by apply delete_lookup_elem.
  - simplify_eq. split; [|by intros [? _]].
    intros He. split; [done|]. by eapply find_order_None.
Qed.

(** X11.  In a book reached from a new one by well-formed requests whose
    LIMIT and MARKET orders carry pairwise distinct ids and timestamps, a
    cancel request removes the resting order of its id and nothing else:
    each side keeps exactly its tuples of other ids, and the index loses the
    id of the request and no other. *)
Theorem cancel_removes_exactly_the_order (sym : string) (history : list Order)
    (b : OrderBook) (c : Order) (b' : OrderBook) (ts : list Trade) :
  Forall well_formed history →
  NoDup (timestamp <$> placed history) →
  NoDup (order_id <$> placed history) →
  run_orders history (new_book sym) = Ok b →
  order_type c = CANCEL →
  add_order c b = Ok (b', ts) →
  (∀ e, e ∈ buy_orders b' ↔ e ∈ buy_orders b ∧ entry_id e ≠ order_id c) ∧
  (∀ e, e ∈ sell_orders b' ↔ e ∈ sell_orders b ∧ entry_id e ≠ order_id c) ∧
  orders_by_id b' = delete (order_id c) (orders_by_id b).
Proof.
  intros Hwf Hts Hids Hhist Hty Hrun.
  destruct (run_orders_sound history [] (new_book sym) (new_book_sound sym) Hwf Hts Hids)
    as (b0 & Hrun0 & Hkeyed & Hbuys & Hsells).
  rewrite Hhist in Hrun0. apply Ok_inj in Hrun0. subst b0.
  assert (∀ s h, side_sound s ([] ++ placed history) (orders_by_id b) h →
            ∀ o', orders_by_id b !! order_id c = Some o' → side o' ≠ s →
            ∀ e, e ∈ h ↔ e ∈ h ∧ entry_id e ≠ order_id c) as Hother.
  { intros s h Hs o' Ho' Hside e. split; [|by intros [? _]].
    intros He. split; [done|]. intros Heq.
    destruct (side_sound_ids _ _ _ _ _ Hs He) as (_ & _ & o1 & Ho1 & Hs1).
    rewrite Heq in Ho1. by simplify_eq. }
  unfold add_order in Hrun. rewrite Hty in Hrun. unfold _cancel_order in Hrun.
  destruct (orders_by_id b !! order_id c) as [c0|] eqn:Hc0.
  - inv_bind Hrun. destruct r as [buys sells]. inv_bind Hrun.
    unfold dict_del in E0. rewrite (Hkeyed _ _ Hc0), Hc0 in E0.
    apply Ok_inj in E0. apply Ok_inj in Hrun. simplify_eq. simpl.
    destruct (side c0) eqn:Hside; inv_bind E; apply Ok_inj in E; simplify_eq.
    + split_and!; [|by eapply Hother; [done..|by rewrite Hside]|done].
      destruct Hbuys as (_ & Hnd & _). by apply remove_order_exact.
    + split_and!; [by eapply Hother; [done..|by rewrite Hside]| |done].
      destruct Hsells as (_ & Hnd & _). by apply remove_order_exact.
  - apply Ok_inj in Hrun. injection Hrun as <- <-.
    assert (∀ s h, side_sound s ([] ++ placed history) (orders_by_id b) h →
              ∀ e, e ∈ h ↔ e ∈ h ∧ entry_id e ≠ order_id c) as Hnone.
    { intros s h Hs e. split; [|by intros [? _]].
      intros He. split; [done|]. intros Heq.
      destruct (side_sound_ids _ _ _ _ _ Hs He) as (_ & _ & o1 & Ho1 & _).
      rewrite Heq in Ho1. by simplify_eq. }
    split_and!; [by eapply Hnone|by eapply Hnone|].
    symmetry. by apply delete_id.
Qed.

Lemma cancel_removes_exactly_the_order_witness :
  ∃ b b' ts,
    run_orders [Sample.limit "B1" BUY 10 100 1; Sample.limit "B2" BUY 10 99 2;
                Sample.limit "S1" SELL 5 101 3] (new_book "AAPL") = Ok b ∧
    add_order (Sample.cancel "B1") b = Ok (b', ts) ∧
    entry_id <$> buy_orders b = ["B1"; "B2"]%string ∧
    entry_id <$> buy_orders b' = ["B2"]%string ∧
    (∀ e, e ∈ buy_orders b' ↔ e ∈ buy_orders b ∧ entry_id e ≠ "B1"%string) ∧
    (∀ e, e ∈ sell_orders b' ↔ e ∈ sell_orders b ∧ entry_id e ≠ "B1"%string) ∧
    orders_by_id b' = delete "B1"%string (orders_by_id b).
Proof.
  eexists _, _, _. split; [vm_compute; reflexivity|].
  split; [vm_compute; reflexivity|]. split; [reflexivity|]. split; [reflexivity|].
  eapply (cancel_removes_exactly_the_order "AAPL"
            [Sample.limit "B1" BUY 10 100 1; Sample.limit "B2" BUY 10 99 2;
             Sample.limit "S1" SELL 5 101 3] _ (Sample.cancel "B1")).
  - repeat first [apply Forall_nil_2 | apply Forall_cons_2]; well_formed_now.
  - refine (bool_decide_unpack _ _). vm_compute. exact I.
  - refine (bool_decide_unpack _ _). vm_compute. exact I.
  - vm_compute; reflexivity.
  - reflexivity.
  - vm_compute; reflexivity.
Defined.

(** ** The client lists *)

Lemma add_order_client_orders (o : Order) (b b' : OrderBook) (ts : list Trade) :
  add_order o b = Ok (b', ts) →
  client_orders b' =
  if decide (order_type o = CANCEL) then client_orders b
  else <[client_id o := default [] (client_orders b !! client_id o) ++ [order_id o]]>
         (client_orders b).
Proof.
  intros Hrun. unfold add_order in Hrun.
  destruct (order_type o) eqn:Hty; simpl.
  - unfold _process_market_order in Hrun.
    destruct (side o); inv_bind Hrun; destruct r as [[[h idx] rem] ts0]; simplify_eq;
      by rewrite (proj1 (proj2 (proj2 (proj2 (record_trades_fields _ _))))).
  - unfold _process_limit_order in Hrun.
    destruct (side o); inv_bind Hrun; destruct r as [[[h idx] rem] ts0];
      inv_bind Hrun; destruct r as [h2 idx2]; simplify_eq;
      by rewrite (proj1 (proj2 (proj2 (proj2 (record_trades_fields _ _))))).
  - unfold _cancel_order in Hrun.
    destruct (orders_by_id b !! order_id o) as [c|]; [|by simplify_eq].
    inv_bind Hrun. destruct r as [buys sells]. inv_bind Hrun. by simplify_eq.
Qed.

Lemma run_orders_client_orders (os : list Order) (client : string) :
  ∀ b b' : OrderBook,
    run_orders os b = Ok b' →
    default [] (client_orders b' !! client) =
    default [] (client_orders b !! client) ++ (order_id <$> by_client client (placed os)).
Proof.
  induction os as [|o os IH]; intros b b' Hrun; simpl in Hrun.
  { simplify_eq. by rewrite app_nil_r. }
  inv_bind Hrun. destruct r as [b1 ts].
  rewrite (IH _ _ Hrun), (add_order_client_orders _ _ _ _ E).
  unfold by_client, placed. rewrite filter_cons.
  destruct (decide (order_type o = CANCEL)) as [Hc|Hc].
  - by rewrite decide_False by (by intros ?).
  - rewrite decide_True by done. rewrite filter_cons.
    destruct (decide (client_id o = client)) as [<-|Hne].
    + rewrite lookup_insert_eq. simpl. by rewrite <-app_assoc.
    + by rewrite lookup_insert_ne.
Qed.

(** X12.  [client_orders] is a log of what each client placed: in a book
    reached from a new one, the list of a client is the ids of the LIMIT and
    MARKET orders of that client, in the order they came; fills and cancel
    requests never shorten it. *)
Theorem client_orders_lists_placed_orders (sym : string) (history : list Order)
    (b : OrderBook) (client : string) :
  run_orders history (new_book sym) = Ok b →
  default [] (client_orders b !! client) = order_id <$> by_client client (placed history).
Proof.
  intros Hrun. by rewrite (run_orders_client_orders _ client _ _ Hrun).
Qed.

Lemma client_orders_lists_placed_orders_witness :
  ∃ b,
    run_orders [Sample.limit "B1" BUY 10 100 1; Sample.market "M1" SELL 10 2;
                Sample.limit "B2" BUY 10 99 3; Sample.cancel "B2"]
               (new_book "AAPL") = Ok b ∧
    buy_orders b = [] ∧
    default [] (client_orders b !! "c1"%string) = ["B1"; "B2"]%string ∧
    default [] (client_orders b !! "c1"%string) =
    order_id <$> by_client "c1" (placed [Sample.limit "B1" BUY 10 100 1;
                                         Sample.market "M1" SELL 10 2;
                                         Sample.limit "B2" BUY 10 99 3;
                                         Sample.cancel "B2"]).
Proof.
  eexists. split; [vm_compute; reflexivity|]. split; [reflexivity|].
  split; [vm_compute; reflexivity|].
  eapply (client_orders_lists_placed_orders "AAPL").
  vm_compute; reflexivity.
Defined.

(** * The views of the book *)

(** ** Snapshots *)

Lemma slice_to_prefix {A : Type} (depth : Z) (l : list A) :
  slice_to depth l `prefix_of` l.
Proof. unfold slice_to. destruct (0 <=? depth); apply prefix_take. Qed.

Lemma slice_to_elem {A : Type} (depth : Z) (l : list A) (x : A) :
  x ∈ slice_to depth l → x ∈ l.
Proof.
  intros Hx. destruct (slice_to_prefix depth l) as [k Hk].
  rewrite Hk. apply elem_of_app. by left.
Qed.

(** X13.  A snapshot of a book reached from a new one, of any depth, lists
    no level better than the top of book it reports: every buy level is
    priced at or below [best_bid], every sell level at or above [best_ask],
    and every level has a positive quantity. *)
Theorem snapshot_levels_within_best (sym : string) (history : list Order)
    (b : OrderBook) (now depth : Z) :
  run_orders history (new_book sym) = Ok b →
  (∀ l, l ∈ snap_buy_levels (get_order_book_snapshot now depth b) →
     ∃ bid, snap_best_bid (get_order_book_snapshot now depth b) = Some bid ∧
            lv_price l ≤ bid.1) ∧
  (∀ l, l ∈ snap_sell_levels (get_order_book_snapshot now depth b) →
     ∃ ask, snap_best_ask (get_order_book_snapshot now depth b) = Some ask ∧
            ask.1 ≤ lv_price l) ∧
  (∀ l, l ∈ snap_buy_levels (get_order_book_snapshot now depth b) ++
            snap_sell_levels (get_order_book_snapshot now depth b) →
     0 < lv_quantity l).
Proof.
  intros Hrun.
  destruct (run_orders_ok _ _ _ (new_book_ok sym) Hrun) as (Hb & Hs & _).
  pose proof (run_orders_positive _ _ _ Hrun (Forall_nil_2 _)) as Hall.
  apply Forall_app in Hall as [Hpb Hps].
  unfold get_order_book_snapshot, get_best_bid, get_best_ask. simpl.
  split_and!.
  - intros l Hl. apply list_elem_of_fmap in Hl as (e & -> & He).
    apply slice_to_elem in He.
    destruct (buy_orders b) as [|r h] eqn:Hbuys; [by apply elem_of_nil in He|].
    eexists. split; [done|]. simpl.
    pose proof (is_heap_root_min (r :: h) r e Hb eq_refl He) as Hle.
    apply key_le_key in Hle. lia.
  - intros l Hl. apply list_elem_of_fmap in Hl as (e & -> & He).
    apply slice_to_elem in He.
    destruct (sell_orders b) as [|r h] eqn:Hsells; [by apply elem_of_nil in He|].
    eexists. split; [done|]. simpl.
    pose proof (is_heap_root_min (r :: h) r e Hs eq_refl He) as Hle.
    by apply key_le_key in Hle.
  - intros l Hl. apply elem_of_app in Hl as [Hl|Hl];
      apply list_elem_of_fmap in Hl as (e & -> & He); apply slice_to_elem in He; simpl.
    + exact (proj1 (Forall_forall _ _) Hpb e He).
    + exact (proj1 (Forall_forall _ _) Hps e He).
Qed.

Lemma snapshot_levels_within_best_witness :
  ∃ b,
    run_orders [Sample.limit "B1" BUY 10 100 1; Sample.limit "B2" BUY 10 98 2;
                Sample.limit "B3" BUY 10 99 3; Sample.limit "S1" SELL 5 101 4]
               (new_book "AAPL") = Ok b ∧
    lv_price <$> snap_buy_levels (get_order_book_snapshot 9 10 b) = [100; 98; 99] ∧
    (∀ l, l ∈ snap_buy_levels (get_order_book_snapshot 9 10 b) →
       ∃ bid, snap_best_bid (get_order_book_snapshot 9 10 b) = Some bid ∧
              lv_price l ≤ bid.1) ∧
    (∀ l, l ∈ snap_sell_levels (get_order_book_snapshot 9 10 b) →
       ∃ ask, snap_best_ask (get_order_book_snapshot 9 10 b) = Some ask ∧
              ask.1 ≤ lv_price l) ∧
    (∀ l, l ∈ snap_buy_levels (get_order_book_snapshot 9 10 b) ++
              snap_sell_levels (get_order_book_snapshot 9 10 b) →
       0 < lv_quantity l).
Proof.
  eexists. split; [vm_compute; reflexivity|]. split; [vm_compute; reflexivity|].
  eapply (snapshot_levels_within_best "AAPL"
            [Sample.limit "B1" BUY 10 100 1; Sample.limit "B2" BUY 10 98 2;
             Sample.limit "B3" BUY 10 99 3; Sample.limit "S1" SELL 5 101 4]).
  vm_compute; reflexivity.
Defined.

(** X14.  A snapshot of positive depth, of any book, lists the first
    [depth] tuples of each side as stored, all of them when the side is
    shorter, and starts each side with the top of book it reports. *)
Theorem snapshot_starts_at_the_best (now depth : Z) (b : OrderBook) :
  0 < depth →
  length (snap_buy_levels (get_order_book_snapshot now depth b))
    = Nat.min (Z.to_nat depth) (length (buy_orders b)) ∧
  length (snap_sell_levels (get_order_book_snapshot now depth b))
    = Nat.min (Z.to_nat depth) (length (sell_orders b)) ∧
  (λ l, (lv_price l, lv_quantity l))
    <$> head (snap_buy_levels (get_order_book_snapshot now depth b))
    = snap_best_bid (get_order_book_snapshot now depth b) ∧
  (λ l, (lv_price l, lv_quantity l))
    <$> head (snap_sell_levels (get_order_book_snapshot now depth b))
    = snap_best_ask (get_order_book_snapshot now depth b).
Proof.
  intros Hdepth.
  unfold get_order_book_snapshot, get_best_bid, get_best_ask, slice_to. simpl.
  destruct (Z.leb_spec 0 depth) as [_|?]; [|lia].
  rewrite !length_fmap, !length_take.
  destruct (Z.to_nat depth) as [|n] eqn:Hn; [lia|].
  split_and!; [done|done| |].
  - by destruct (buy_orders b).
  - by destruct (sell_orders b).
Qed.

Lemma snapshot_starts_at_the_best_witness :
  length (snap_buy_levels (get_order_book_snapshot 9 2
            (set_sides [(-100, 1, Sample.limit "B1" BUY 10 100 1);
                        (-98, 2, Sample.limit "B2" BUY 10 98 2);
                        (-99, 3, Sample.limit "B3" BUY 10 99 3)] [] ∅
                       (new_book "AAPL"))))
    = 2%nat.
Proof.
  pose proof (snapshot_starts_at_the_best 9 2
                (set_sides [(-100, 1, Sample.limit "B1" BUY 10 100 1);
                            (-98, 2, Sample.limit "B2" BUY 10 98 2);
                            (-99, 3, Sample.limit "B3" BUY 10 99 3)] [] ∅
                           (new_book "AAPL"))) as Hthm.
  destruct Hthm as (Hlen & _); [lia|]. exact Hlen.
Defined.

(** ** Statistics *)

Lemma assign_quantity_keys (o : Order) (q : Z) (idx : gmap string Order) (k : string) :
  is_Some (assign_quantity o q idx !! k) → is_Some (idx !! k).
Proof.
  unfold assign_quantity. case_decide as Hfiled; [|done].
  destruct (decide (k = order_id o)) as [->|Hne].
  - intros _. by rewrite Hfiled.
  - by rewrite lookup_insert_ne.
Qed.

(** The matching loop files no new id. *)
Lemma match_loop_keys {T : Type} (crosses : Z → result bool)
    (mk : Entry → Z → T) (fuel : nat) :
  ∀ (heap : list Entry) (idx : gmap string Order) (rem : Z)
    (h' : list Entry) (i' : gmap string Order) (r' : Z) (ts : list T),
    match_loop fuel crosses mk heap idx rem [] = Ok (h', i', r', ts) →
    ∀ k, is_Some (i' !! k) → is_Some (idx !! k).
Proof.
  induction fuel as [|fuel IH]; intros heap idx rem h' i' r' ts Hrun k Hk.
  { simpl in Hrun. by simplify_eq. }
  apply match_loop_step in Hrun
    as [(_ & _ & -> & _)
       |[(best & heap1 & idx1 & ts1 & _ & _ & _ & _ & _ & Hdel & Hrun & _)
        |(best & _ & _ & _ & _ & _ & -> & _)]].
  - done.
  - apply (IH _ _ _ _ _ _ _ Hrun) in Hk.
    unfold dict_del in Hdel.
    destruct (idx !! order_id (entry_order best)); [|done].
    apply Ok_inj in Hdel. subst idx1.
    destruct (decide (k = order_id (entry_order best))) as [->|Hne].
    + by rewrite lookup_delete_eq in Hk; destruct Hk.
    + by rewrite lookup_delete_ne in Hk.
  - by eapply assign_quantity_keys.
Qed.

Lemma add_order_keys (o : Order) (b b' : OrderBook) (ts : list Trade) (k : string) :
  add_order o b = Ok (b', ts) →
  is_Some (orders_by_id b' !! k) →
  is_Some (orders_by_id b !! k) ∨ (order_type o ≠ CANCEL ∧ k = order_id o).
Proof.
  intros Hrun Hk. unfold add_order in Hrun.
  assert (is_Some (orders_by_id (store_order o b) !! k) →
          is_Some (orders_by_id b !! k) ∨ k = order_id o) as Hstore.
  { simpl. destruct (decide (k = order_id o)) as [->|Hne]; [by right|].
    rewrite lookup_insert_ne by done. by left. }
  destruct (order_type o) eqn:Hty.
  - unfold _process_market_order in Hrun.
    destruct (side o); inv_bind Hrun; destruct r as [[[h idx] rem] ts0]; simplify_eq;
      rewrite record_trades_index in Hk; simpl in Hk;
      apply (match_loop_keys _ _ _ _ _ _ _ _ _ _ E) in Hk;
      destruct (Hstore Hk) as [?|?]; auto.
  - unfold _process_limit_order in Hrun.
    destruct (side o); inv_bind Hrun; destruct r as [[[h idx] rem] ts0];
      inv_bind Hrun; destruct r as [h2 idx2]; simplify_eq;
      rewrite record_trades_index in Hk; simpl in Hk;
      (assert (is_Some (idx !! k)) as Hk1;
       [ destruct (0 <? rem); [|by simplify_eq];
         destruct (price o) as [p|]; [|by simplify_eq/=];
         simpl in E0; inv_bind E0; apply Ok_inj in E0; simplify_eq;
         by eapply assign_quantity_keys
       | apply (match_loop_keys _ _ _ _ _ _ _ _ _ _ E) in Hk1;
         destruct (Hstore Hk1) as [?|?]; auto ]).
  - left. unfold _cancel_order in Hrun.
    destruct (orders_by_id b !! order_id o) as [c|]; [|by simplify_eq].
    inv_bind Hrun. destruct r as [buys sells]. inv_bind Hrun.
    unfold dict_del in E0. destruct (orders_by_id b !! order_id c); [|done].
    apply Ok_inj in E0. apply Ok_inj in Hrun. simplify_eq. simpl in Hk.
    destruct (decide (k = order_id c)) as [->|Hne].
    + by rewrite lookup_delete_eq in Hk; destruct Hk.
    + by rewrite lookup_delete_ne in Hk.
Qed.

Lemma run_orders_keys (os : list Order) (k : string) :
  ∀ b b' : OrderBook,
    run_orders os b = Ok b' →
    is_Some (orders_by_id b' !! k) →
    is_Some (orders_by_id b !! k) ∨ k ∈ order_id <$> placed os.
Proof.
  induction os as [|o os IH]; intros b b' Hrun Hk; simpl in Hrun.
  { simplify_eq. by left. }
  inv_bind Hrun. destruct r as [b1 ts].
  unfold placed. rewrite filter_cons.
  destruct (IH _ _ Hrun Hk) as [Hk1|Hin].
  - destruct (add_order_keys _ _ _ _ _ E Hk1) as [?|[Hty ->]]; [by left|].
    right. rewrite decide_True by done. rewrite fmap_cons. apply list_elem_of_here.
  - right. case_decide; [|done]. rewrite fmap_cons. by apply list_elem_of_further.
Qed.

(** X15.  In a book reached from a new one by well-formed requests whose
    LIMIT and MARKET orders carry pairwise distinct ids and timestamps, the
    statistics count no more resting orders than [total_orders], and
    [total_orders], the size of the index, is no more than the number of
    LIMIT and MARKET orders received. *)
Theorem statistics_count_bounds (sym : string) (history : list Order) (b : OrderBook) :
  Forall well_formed history →
  NoDup (timestamp <$> placed history) →
  NoDup (order_id <$> placed history) →
  run_orders history (new_book sym) = Ok b →
  (stat_buy_orders (get_statistics b) + stat_sell_orders (get_statistics b)
     ≤ stat_total_orders (get_statistics b))%nat ∧
  (stat_total_orders (get_statistics b) ≤ length (placed history))%nat.
Proof.
  intros Hwf Hts Hids Hhist.
  destruct (run_orders_sound history [] (new_book sym) (new_book_sound sym) Hwf Hts Hids)
    as (b0 & Hrun0 & Hkeyed & Hbuys & Hsells).
  rewrite Hhist in Hrun0. apply Ok_inj in Hrun0. subst b0.
  unfold get_statistics. simpl. split.
  - rewrite <-length_app, <-(length_fmap entry_id).
    assert (NoDup (entry_id <$> buy_orders b ++ sell_orders b)) as Hnd.
    { rewrite fmap_app. apply NoDup_app.
      pose proof Hbuys as (_ & Hnb & _). pose proof Hsells as (_ & Hns & _).
      split_and!; [done| |done].
      intros k Hkb Hks. apply list_elem_of_fmap in Hks as (e & -> & He).
      by apply (sides_apart _ _ BUY SELL _ _ e ltac:(done) Hbuys Hsells He). }
    rewrite <-(size_list_to_set (C := gset string)) by done.
    rewrite <-(size_dom (D := gset string)).
    apply subseteq_size. intros k Hk.
    apply elem_of_list_to_set, list_elem_of_fmap in Hk as (e & -> & He).
    apply elem_of_dom. apply elem_of_app in He as [He|He].
    + destruct (side_sound_ids _ _ _ _ _ Hbuys He) as (_ & _ & o1 & Ho1 & _). by eexists.
    + destruct (side_sound_ids _ _ _ _ _ Hsells He) as (_ & _ & o1 & Ho1 & _). by eexists.
  - rewrite <-(length_fmap order_id).
    rewrite <-(size_list_to_set (C := gset string)) by done.
    rewrite <-(size_dom (D := gset string)).
    apply subseteq_size. intros k Hk.
    apply elem_of_dom in Hk. apply elem_of_list_to_set.
    destruct (run_orders_keys _ _ _ _ Hhist Hk) as [Hnew|?]; [|done].
    simpl in Hnew. rewrite lookup_empty in Hnew. by destruct Hnew.
Qed.

Lemma statistics_count_bounds_witness :
  ∃ b,
    run_orders [Sample.limit "S1" SELL 10 101 1; Sample.limit "B1" BUY 10 100 2;
                Sample.market "M1" BUY 4 3; Sample.cancel "B1"]
               (new_book "AAPL") = Ok b ∧
    stat_buy_orders (get_statistics b) = 0%nat ∧
    stat_sell_orders (get_statistics b) = 1%nat ∧
    stat_total_orders (get_statistics b) = 2%nat ∧
    (stat_buy_orders (get_statistics b) + stat_sell_orders (get_statistics b)
       ≤ stat_total_orders (get_statistics b))%nat ∧
    (stat_total_orders (get_statistics b)
       ≤ length (placed [Sample.limit "S1" SELL 10 101 1; Sample.limit "B1" BUY 10 100 2;
                         Sample.market "M1" BUY 4 3; Sample.cancel "B1"]))%nat.
Proof.
  eexists. split; [vm_compute; reflexivity|].
  split; [reflexivity|]. split; [reflexivity|]. split; [vm_compute; reflexivity|].
  eapply (statistics_count_bounds "AAPL").
  - repeat first [apply Forall_nil_2 | apply Forall_cons_2]; well_formed_now.
  - refine (bool_decide_unpack _ _). vm_compute. exact I.
  - refine (bool_decide_unpack _ _). vm_compute. exact I.
  - vm_compute; reflexivity.
Defined.

(** * The order processor and the parser *)

(** ** One book per symbol *)

Lemma process_order_answered (o : Order) (p p' : OrderProcessor) (ok : bool)
    (msg : Message) (ts : list Trade) :
  process_order o p = Answered p' ok msg ts →
  ∃ b', add_order o (default (new_book (symbol o)) (order_books p !! symbol o))
          = Ok (b', ts) ∧
        order_books p' = <[symbol o := b']> (order_books p) ∧
        total_orders_processed p' = total_orders_processed p + 1.
Proof.
  unfold process_order, get_or_create_order_book. intros Hrun.
  destruct (order_books p !! symbol o) as [b0|] eqn:Hb; simpl in *.
  - destruct (add_order o b0) as [[b' ts']|e]; [|done].
    exists b'. by destruct ts'; simplify_eq.
  - destruct (add_order o (new_book (symbol o))) as [[b' ts']|e]; [|done].
    exists b'. destruct ts'; simplify_eq; simpl; by rewrite insert_insert_eq.
Qed.

Lemma process_orders_books (os : list Order) :
  ∀ p p' : OrderProcessor,
    process_orders os p = Some p' →
    total_orders_processed p' = total_orders_processed p + Z.of_nat (length os) ∧
    ∀ sym,
      match order_books p' !! sym with
      | Some b' =>
        run_orders (for_symbol sym os) (default (new_book sym) (order_books p !! sym))
          = Ok b' ∧
        (order_books p !! sym = None → for_symbol sym os ≠ [])
      | None => order_books p !! sym = None ∧ for_symbol sym os = []
      end.
Proof.
  induction os as [|o os IH]; intros p p' Hrun; simpl in Hrun.
  { simplify_eq. split; [simpl; lia|]. intros sym.
    by destruct (order_books p' !! sym). }
  destruct (process_order o p) as [p1 ok msg ts|e] eqn:Hone; [|done].
  apply process_order_answered in Hone as (b1 & Hadd & Hbooks & Htotal).
  destruct (IH _ _ Hrun) as [Hcount Hsyms].
  split; [rewrite Hcount, Htotal, length_cons, Nat2Z.inj_succ; lia|].
  intros sym. specialize (Hsyms sym). rewrite Hbooks in Hsyms.
  unfold for_symbol. rewrite filter_cons.
  destruct (decide (symbol o = sym)) as [<-|Hne].
  - rewrite lookup_insert_eq in Hsyms.
    destruct (order_books p' !! symbol o) as [b'|]; [|by destruct Hsyms].
    destruct Hsyms as [Hrest _]. simpl in Hrest. split; [|done].
    cbn [run_orders]. rewrite Hadd. exact Hrest.
  - by rewrite lookup_insert_ne in Hsyms.
Qed.

(** X16.  The processor keeps one book per symbol, each fed only the orders
    of its symbol: after a sequence of orders none of which raised, the book
    of a symbol is the book those of the orders that carry the symbol build
    from a new one, in their order; a symbol has a book exactly when an
    order carried it; and [total_orders_processed] is the number of orders. *)
Theorem processor_keeps_one_book_per_symbol (history : list Order)
    (p : OrderProcessor) (sym : string) :
  process_orders history new_processor = Some p →
  total_orders_processed p = Z.of_nat (length history) ∧
  match order_books p !! sym with
  | Some b =>
    for_symbol sym history ≠ [] ∧
    run_orders (for_symbol sym history) (new_book sym) = Ok b
  | None => for_symbol sym history = []
  end.
Proof.
  intros Hrun. destruct (process_orders_books _ _ _ Hrun) as [Hcount Hsyms].
  split; [by rewrite Hcount|].
  specialize (Hsyms sym). simpl in Hsyms. rewrite lookup_empty in Hsyms.
  destruct (order_books p !! sym) as [b|].
  - destruct Hsyms as [Hb Hne]. split; [by apply Hne|done].
  - by destruct Hsyms.
Qed.

Lemma processor_keeps_one_book_per_symbol_witness :
  ∃ p b,
    process_orders [Sample.limit "S1" SELL 10 150 1;
                    mkOrder "X1" "c3" "MSFT" BUY LIMIT 5 (Some 300) 2;
                    Sample.limit "B1" BUY 4 150 3] new_processor = Some p ∧
    order_books p !! "AAPL"%string = Some b ∧
    get_best_ask b = Some (150, 6) ∧
    total_orders_processed p = 3 ∧
    run_orders [Sample.limit "S1" SELL 10 150 1; Sample.limit "B1" BUY 4 150 3]
               (new_book "AAPL") = Ok b.
Proof.
  eexists _, _. split; [vm_compute; reflexivity|].
  match goal with
  | |- order_books ?p !! ?sym = _ ∧ _ =>
    pose proof (processor_keeps_one_book_per_symbol
                  [Sample.limit "S1" SELL 10 150 1;
                   mkOrder "X1" "c3" "MSFT" BUY LIMIT 5 (Some 300) 2;
                   Sample.limit "B1" BUY 4 150 3] p sym) as Hthm
  end.
  split; [vm_compute; reflexivity|]. split; [reflexivity|].
  destruct Hthm as [Hcount Hbook]; [vm_compute; reflexivity|].
  split; [exact Hcount|].
  exact (proj2 Hbook).
Defined.

(** ** An order the processor cannot serve *)

Lemma unpriced_limit_buy_raises (o : Order) (b : OrderBook) :
  order_type o = LIMIT → side o = BUY → price o = None → 0 < quantity o →
  add_order o b = Raise TypeError.
Proof.
  intros Hty Hside Hprice Hq. unfold add_order. rewrite Hty.
  unfold _process_limit_order. rewrite Hside, Hprice.
  cbn [sell_orders buy_orders orders_by_id store_order].
  destruct (sell_orders b) as [|best sells]; cbn [length match_loop].
  - cbn [result_bind]. by destruct (Z.ltb_spec 0 (quantity o)); [|lia].
  - by destruct (Z.ltb_spec 0 (quantity o)); [|lia].
Qed.

(** X17.  A LIMIT BUY order without a price and with a positive quantity is
    never served, whatever the books hold: [add_order] raises [TypeError],
    at the price test of the loop when a sell order rests and at
    [-order.price] when none does, and [process_order] answers with an
    error. *)
Theorem unpriced_limit_buy_is_an_error (o : Order) (p : OrderProcessor) :
  order_type o = LIMIT →
  side o = BUY →
  price o = None →
  0 < quantity o →
  process_order o p = Caught TypeError.
Proof.
  intros Hty Hside Hprice Hq. unfold process_order.
  destruct (get_or_create_order_book (symbol o) p) as [p1 order_book].
  by rewrite unpriced_limit_buy_raises.
Qed.

Lemma unpriced_limit_buy_is_an_error_witness :
  ∃ o,
    _parse_order sample_env
      (mkFrame (Some "L1"%string) (Some "c1"%string) (Some "AAPL"%string)
               (Some (JStr "buy")) (Some (JStr "limit")) (Some (JInt 10))
               (Some (JFloat 0))) = Ok o ∧
    price o = None ∧
    process_order o new_processor = Caught TypeError.
Proof.
  eexists. split; [vm_compute; reflexivity|]. split; [reflexivity|].
  apply (unpriced_limit_buy_is_an_error
           (mkOrder "L1" "c1" "AAPL" BUY LIMIT 10 None 7) new_processor).
  - reflexivity.
  - reflexivity.
  - reflexivity.
  - vm_compute; reflexivity.
Defined.

(** ** The required fields *)

(** X18.  A frame that lacks one of the five required fields ([client_id],
    [symbol], [side], [order_type], [quantity]) is rejected with
    [ValueError], whatever its other fields hold. *)
Theorem parser_requires_five_fields (env : Env) (f : Frame) :
  f_client_id f = None ∨ f_symbol f = None ∨ f_side f = None ∨
  f_order_type f = None ∨ f_quantity f = None →
  _parse_order env f = Raise ValueError.
Proof.
  intros Hmissing. unfold _parse_order, required.
  destruct (f_client_id f); [|done].
  destruct (f_symbol f); [|done].
  destruct (f_side f); [|done].
  destruct (f_order_type f); [|done].
  destruct (f_quantity f); [|done].
  naive_solver.
Qed.

Lemma parser_requires_five_fields_witness :
  _parse_order sample_env
    (mkFrame (Some "Q1"%string) (Some "c1"%string) None (Some (JInt 3))
             (Some (JStr "limit")) (Some (JInt 10)) (Some (JFloat 100)))
  = Raise ValueError.
Proof.
  apply (parser_requires_five_fields sample_env).
  right. left. reflexivity.
Defined.

(** ** The scenarios of the specification, by evaluation *)

Module Scenarios.
Import Sample.
Local Open Scope string_scope.

(** Scenario 1: crossing limit, full fill; the book is left empty. *)
Example crossing_full_fill :
  fills (limit "B1" BUY 50 15000 2) (after [limit "S1" SELL 50 15000 1])
  = Some [mkTrade "B1" "S1" "AAPL" 50 15000].
Proof. vm_compute. reflexivity. Qed.

(** Scenario 2: partial fill, the residual rests. *)
Example partial_fill_rests :
  get_best_ask <$> after [limit "S1" SELL 100 15000 1; limit "B1" BUY 30 15000 2]
  = Some (Some (15000, 70)).
Proof. vm_compute. reflexivity. Qed.

(** Scenario 3: price-time priority. *)
Example two_bids_one_price :
  fills (limit "S1" SELL 15 15100 3)
        (after [limit "B1" BUY 10 15100 1; limit "B2" BUY 10 15100 2])
  = Some [mkTrade "B1" "S1" "AAPL" 10 15100; mkTrade "B2" "S1" "AAPL" 5 15100].
Proof. vm_compute. reflexivity. Qed.

(** Scenario 4: a market order walks the book. *)
Example market_walks_book :
  fills (market "M1" BUY 15 3)
        (after [limit "S1" SELL 10 15000 1; limit "S2" SELL 10 15100 2])
  = Some [mkTrade "M1" "S1" "AAPL" 10 15000; mkTrade "M1" "S2" "AAPL" 5 15100].
Proof. vm_compute. reflexivity. Qed.

(** Scenario 5: market order with insufficient liquidity. *)
Example market_exhausts_side :
  sell_orders <$> after [limit "S1" SELL 5 15000 1; market "M1" BUY 20 2] = Some [].
Proof. vm_compute. reflexivity. Qed.

(** Scenario 6: cancel before fill. *)
Example cancel_before_fill :
  fills (limit "S1" SELL 10 10000 2) (after [limit "B1" BUY 10 10000 1; cancel "B1"])
  = Some [].
Proof. vm_compute. reflexivity. Qed.

(** A MARKET SELL trades at the first component of the best buy tuple as
    stored, the negated price. *)
Example market_sell_price :
  fills (market "M1" SELL 4 2) (after [limit "B1" BUY 10 15000 1])
  = Some [mkTrade "B1" "M1" "AAPL" 4 (-15000)].
Proof. vm_compute. reflexivity. Qed.

End Scenarios.
